(** * WordleAgent: a shallow embedding of [my_agent.py]

    The agent keeps a full [dictionary], a shrinking copy of it
    ([dictionary_backup], the candidate set), a cached opener index and a
    guess counter.  Python lists are Rocq lists, Python strings are lists of
    characters, Python floats are binary64 primitive floats, and a raised
    exception is a value of [result] that keeps the state reached so far. *)

From Stdlib Require Import Ascii String.
From Stdlib Require Import List ZArith Bool Arith Lia Floats.
From Stdlib Require Import Permutation.
Import ListNotations.

Local Open Scope Z_scope.

(** ** Exceptions and results *)

Inductive exn : Set :=
| IndexError
| ValueError
| ZeroDivisionError
| UnboundLocalError.

Inductive result (A : Type) : Type :=
| Ok (a : A)
| Raise (e : exn).

Arguments Ok {A} a.
Arguments Raise {A} e.

Definition bind {A B : Type} (r : result A) (k : A -> result B) : result B :=
  match r with
  | Ok a => k a
  | Raise e => Raise e
  end.

Declare Scope py_scope.
Delimit Scope py_scope with py.
Notation "x <- c1 ;; c2" := (bind c1 (fun x => c2))
  (at level 100, c1 at next level, right associativity) : py_scope.
Local Open Scope py_scope.

(** ** Python built-ins used by the agent *)

Definition word : Set := list ascii.

Definition W (s : string) : word := list_ascii_of_string s.

Module Py.

(** [l[i]] for a non-negative [i]. *)
Definition getitem {A : Type} (l : list A) (i : nat) : result A :=
  match nth_error l i with
  | Some a => Ok a
  | None => Raise IndexError
  end.

(** [l[z]] for any integer [z]: a negative index counts from the end. *)
Definition getitem_Z {A : Type} (l : list A) (z : Z) : result A :=
  if 0 <=? z then getitem l (Z.to_nat z)
  else if 0 <=? Z.of_nat (length l) + z
       then getitem l (Z.to_nat (Z.of_nat (length l) + z))
       else Raise IndexError.

(** [c in w] for a one-character [c]. *)
Definition contains (c : ascii) (w : list ascii) : bool :=
  existsb (Ascii.eqb c) w.

(** [w.count(c)] for a one-character [c]. *)
Fixpoint count (c : ascii) (w : list ascii) : nat :=
  match w with
  | [] => O
  | x :: t => if Ascii.eqb x c then S (count c t) else count c t
  end.

Fixpoint str_eqb (a b : word) : bool :=
  match a, b with
  | [], [] => true
  | x :: a', y :: b' => Ascii.eqb x y && str_eqb a' b'
  | _, _ => false
  end.

(** [l.remove(w)]: drops the first element equal to [w]. *)
Fixpoint remove (w : word) (l : list word) : result (list word) :=
  match l with
  | [] => Raise ValueError
  | x :: t =>
      if str_eqb x w then Ok t
      else (t' <- remove w t ;; Ok (x :: t'))
  end.

(** [l.index(z)] on a list of integers. *)
Fixpoint index (z : Z) (l : list Z) : result nat :=
  match l with
  | [] => Raise ValueError
  | x :: t => if x =? z then Ok O else (i <- index z t ;; Ok (S i))
  end.

(** [l.count(z)] on a list of integers. *)
Fixpoint count_Z (z : Z) (l : list Z) : nat :=
  match l with
  | [] => O
  | x :: t => if x =? z then S (count_Z z t) else count_Z z t
  end.

End Py.

(** ** The agent *)

(** The fields of [WordleAgent.__init__], together with [has_run], the
    attribute that the [run_once] decorator keeps on the wrapper of
    [get_first_guess]. *)
Record WordleAgent : Type := mkAgent {
  dictionary : list word;
  dictionary_backup : list word;
  letters : list ascii;
  word_length : Z;
  num_guesses : Z;
  mode : string;
  first_guess_index : nat;
  last_guess_counter : Z;
  has_run : bool
}.

(** [WordleAgent(dictionary, letters, word_length, num_guesses, mode)] in a
    process whose wrapper flag currently is [flag]. *)
Definition init (dict : list word) (ls : list ascii) (wl ng : Z) (m : string)
    (flag : bool) : WordleAgent :=
  mkAgent dict dict ls wl ng m O 0 flag.

Definition set_backup (self : WordleAgent) (b : list word) : WordleAgent :=
  mkAgent (dictionary self) b (letters self) (word_length self)
    (num_guesses self) (mode self) (first_guess_index self)
    (last_guess_counter self) (has_run self).

Definition set_counter (self : WordleAgent) (c : Z) : WordleAgent :=
  mkAgent (dictionary self) (dictionary_backup self) (letters self)
    (word_length self) (num_guesses self) (mode self)
    (first_guess_index self) c (has_run self).

Definition set_first (self : WordleAgent) (i : nat) : WordleAgent :=
  mkAgent (dictionary self) (dictionary_backup self) (letters self)
    (word_length self) (num_guesses self) (mode self) i
    (last_guess_counter self) (has_run self).

Definition set_has_run (self : WordleAgent) (b : bool) : WordleAgent :=
  mkAgent (dictionary self) (dictionary_backup self) (letters self)
    (word_length self) (num_guesses self) (mode self)
    (first_guess_index self) (last_guess_counter self) b.

(** The percepts triple [(guess_counter, letter_indexes, letter_states)]. *)
Definition percepts : Set := (Z * list Z * list Z)%type.

(** Modelled from the spec: [helper.letter_indices_to_word], the decoding
    collaborator, is not part of the agent's source.  The spec gives it as a
    pure function from the letter identifiers and the alphabet to the word:
    each identifier is looked up in the alphabet. *)
Fixpoint letter_indices_to_word (letter_indexes : list Z) (ls : list ascii)
    : result word :=
  match letter_indexes with
  | [] => Ok []
  | z :: t =>
      c <- Py.getitem_Z ls z ;;
      r <- letter_indices_to_word t ls ;;
      Ok (c :: r)
  end.

(** *** reduce_guesses *)

(** The body of the inner loop of [reduce_guesses] at position [i] of the
    candidate [w]: [Ok true] when the candidate is removed (and the loop
    left), [Ok false] when the loop goes on. *)
Definition reduce_at (in_english : word) (letter_states : list Z) (w : word)
    (i : nat) : result bool :=
  s <- Py.getitem letter_states i ;;
  if s =? 0 then
    g <- Py.getitem in_english i ;;
    if Py.contains g w then
      if Nat.eqb (Py.count g in_english) 1 then Ok true
      else (c <- Py.getitem w i ;; Ok (Ascii.eqb g c))
    else Ok false
  else if s =? 1 then
    g <- Py.getitem in_english i ;;
    c <- Py.getitem w i ;;
    Ok (negb (Ascii.eqb g c))
  else if s =? -1 then
    g <- Py.getitem in_english i ;;
    if negb (Py.contains g w) then Ok true
    else (c <- Py.getitem w i ;; Ok (Ascii.eqb g c))
  else Ok false.

(** [for i in range(len(word))], over the positions still to visit. *)
Fixpoint reduce_word (in_english : word) (letter_states : list Z) (w : word)
    (positions : list nat) : result bool :=
  match positions with
  | [] => Ok false
  | i :: rest =>
      b <- reduce_at in_english letter_states w i ;;
      if b then Ok true else reduce_word in_english letter_states w rest
  end.

Definition removes (in_english : word) (letter_states : list Z) (w : word)
    : result bool :=
  reduce_word in_english letter_states w (seq 0 (length w)).

(** [for j in range(len(dict_copy))]: the loop walks the snapshot [dict_copy]
    and mutates the live list [backup]; an exception leaves the removals made
    so far in place. *)
Fixpoint reduce_loop (in_english : word) (letter_states : list Z)
    (dict_copy backup : list word) : result unit * list word :=
  match dict_copy with
  | [] => (Ok tt, backup)
  | w :: rest =>
      match removes in_english letter_states w with
      | Raise e => (Raise e, backup)
      | Ok false => reduce_loop in_english letter_states rest backup
      | Ok true =>
          match Py.remove w backup with
          | Raise e => (Raise e, backup)
          | Ok backup' => reduce_loop in_english letter_states rest backup'
          end
      end
  end.

Definition reduce_guesses (self : WordleAgent) (p : percepts)
    : result unit * WordleAgent :=
  let '(_, letter_indexes, letter_states) := p in
  let dict_copy := dictionary_backup self in
  match letter_indices_to_word letter_indexes (letters self) with
  | Raise e => (Raise e, self)
  | Ok in_english =>
      let '(r, b) :=
        reduce_loop in_english letter_states dict_copy (dictionary_backup self) in
      (r, set_backup self b)
  end.

(** *** Numbers

    The scores are Python floats.  [freq / len(...)] divides two integers
    that count words; below 2^53 their conversions are exact and Python's
    true division is the float division of the two.  An integer score that
    meets a float is converted the same way, as [np.argmax] does with the
    integers left in a score list. *)

Definition float_of_nat (n : nat) : float :=
  PrimFloat.of_uint63 (Uint63.of_Z (Z.of_nat n)).

(** The literals [0.9] and [0.1], as the binary64 values they denote. *)
Definition f0_9 : float := 0x1.ccccccccccccdp-1%float.
Definition f0_1 : float := 0x1.999999999999ap-4%float.

(** Modelled from the spec: [np.argmax] belongs to NumPy, not to the agent's
    source.  The spec's tie-break policy is the first word achieving the
    maximum score; NumPy refuses an empty sequence with a [ValueError] and
    takes a NaN, once met, as the maximum. *)
Fixpoint argmax_loop (mp : float) (mi i : nat) (l : list float) : nat :=
  match l with
  | [] => mi
  | x :: t =>
      if PrimFloat.is_nan mp then mi
      else if PrimFloat.leb x mp then argmax_loop mp mi (S i) t
      else argmax_loop x i (S i) t
  end.

Definition argmax (scores : list float) : result nat :=
  match scores with
  | [] => Raise ValueError
  | x :: t => Ok (argmax_loop x O 1%nat t)
  end.

(** *** probability, entropy, score, calculate_scores *)

(** [for i in range(len(self.dictionary_backup))] of [probability], with the
    running [freq]. *)
Fixpoint probability_loop (backup : list word) (char : ascii) (pos : nat)
    (freq : nat) : result nat :=
  match backup with
  | [] => Ok freq
  | w :: t =>
      c <- Py.getitem w pos ;;
      probability_loop t char pos (if Ascii.eqb c char then S freq else freq)
  end.

Definition probability (self : WordleAgent) (char : ascii) (pos : nat)
    : result float :=
  freq <- probability_loop (dictionary_backup self) char pos O ;;
  match length (dictionary_backup self) with
  | O => Raise ZeroDivisionError
  | S _ =>
      Ok (float_of_nat freq / float_of_nat (length (dictionary_backup self)))%float
  end.

Definition entropy (self : WordleAgent) (char : ascii) (pos : nat)
    : result float :=
  p <- probability self char pos ;;
  Ok (p * (1 - p))%float.

(** [for i in range(len(word))] of [score], with the running [s] and
    [double_letter]. *)
Fixpoint score_loop (self : WordleAgent) (w : word) (positions : list nat)
    (s : float) (double_letter : bool) : result (float * bool) :=
  match positions with
  | [] => Ok (s, double_letter)
  | i :: rest =>
      c <- Py.getitem w i ;;
      e <- entropy self c i ;;
      let count := Py.count c w in
      score_loop self w rest (s + e)%float
        (if Nat.ltb 1 count then true else double_letter)
  end.

Definition score (self : WordleAgent) (w : word) : result float :=
  r <- score_loop self w (seq 0 (length w)) 0%float false ;;
  let '(s, double_letter) := r in
  Ok (if double_letter then (s * f0_9)%float else s).

(** [for word in self.dictionary_backup: scores.append(self.score(word))],
    over the words still to visit. *)
Fixpoint scores_of (self : WordleAgent) (ws : list word)
    : result (list float) :=
  match ws with
  | [] => Ok []
  | w :: t =>
      s <- score self w ;;
      r <- scores_of self t ;;
      Ok (s :: r)
  end.

Definition calculate_scores (self : WordleAgent) : result (list float) :=
  scores_of self (dictionary_backup self).

(** *** get_first_guess under [run_once] *)

Definition get_first_guess (self : WordleAgent) : result unit * WordleAgent :=
  if has_run self then (Ok tt, self)
  else
    let self := set_has_run self true in
    match (scores <- calculate_scores self ;; argmax scores) with
    | Raise e => (Raise e, self)
    | Ok i => (Ok tt, set_first self i)
    end.

(** *** green_counter and smart_guess *)

Definition green_counter (p : percepts) : nat :=
  let '(_, _, letter_states) := p in Py.count_Z 1 letter_states.

(** [for word in self.dictionary_backup: possible_letters.append(word[grey_pos])] *)
Fixpoint possible_letters_of (backup : list word) (grey_pos : nat)
    : result (list ascii) :=
  match backup with
  | [] => Ok []
  | w :: t =>
      c <- Py.getitem w grey_pos ;;
      r <- possible_letters_of t grey_pos ;;
      Ok (c :: r)
  end.

(** [for char in self.dictionary[i]] of [smart_guess], over the characters
    still to visit, with the running [scores[i]] and [double_letter];
    [double_letter] is [None] while the variable is unbound. *)
Fixpoint smart_chars (possible_letters : list ascii) (w : word)
    (chars : list ascii) (sc : nat) (double_letter : option bool)
    : nat * option bool :=
  match chars with
  | [] => (sc, double_letter)
  | char :: rest =>
      if Py.contains char possible_letters then
        smart_chars possible_letters w rest (S sc)
          (if Nat.ltb 1 (Py.count char w) then Some true else Some false)
      else smart_chars possible_letters w rest sc (Some false)
  end.

(** [for i in range(len(self.dictionary))] of [smart_guess]; the variable
    [double_letter] lives on from one word to the next. *)
Fixpoint smart_scores (possible_letters : list ascii) (dict : list word)
    (double_letter : option bool) : result (list float) :=
  match dict with
  | [] => Ok []
  | w :: t =>
      let '(sc, dl) := smart_chars possible_letters w w O double_letter in
      match dl with
      | None => Raise UnboundLocalError
      | Some b =>
          r <- smart_scores possible_letters t dl ;;
          Ok ((if b then (float_of_nat sc * f0_1)%float else float_of_nat sc) :: r)
      end
  end.

Definition smart_guess (self : WordleAgent) (p : percepts) : result word :=
  let '(_, _, letter_states) := p in
  grey_pos <- Py.index 0 letter_states ;;
  possible_letters <- possible_letters_of (dictionary_backup self) grey_pos ;;
  scores <- smart_scores possible_letters (dictionary self) None ;;
  smart_index <- argmax scores ;;
  Py.getitem (dictionary self) smart_index.

(** *** AgentFunction *)

(** The block under [if guess_counter != self.last_guess_counter]. *)
Definition drop_rejected (self : WordleAgent) (guess_counter : Z)
    : result unit * WordleAgent :=
  if guess_counter =? last_guess_counter self then (Ok tt, self)
  else
    match (scores <- calculate_scores self ;;
           max_index <- argmax scores ;;
           w <- Py.getitem (dictionary_backup self) max_index ;;
           Py.remove w (dictionary_backup self)) with
    | Raise e => (Raise e, self)
    | Ok b => (Ok tt, set_backup self b)
    end.

(** The condition that hands the turn to [smart_guess]. *)
Definition stuck (self : WordleAgent) (p : percepts) : bool :=
  let '(guess_counter, _, _) := p in
  String.eqb (mode self) "easy"
  && (2 <? length (dictionary_backup self))%nat
  && negb (guess_counter =? num_guesses self - 1)
  && (Z.of_nat (green_counter p) =? word_length self - 1).

(** The block under [if len(self.dictionary_backup) > 0]; Python's [None]
    is returned when the block is skipped. *)
Definition next_guess (self : WordleAgent) (p : percepts)
    : result (option word) :=
  match dictionary_backup self with
  | [] => Ok None
  | _ :: _ =>
      if stuck self p then (guess <- smart_guess self p ;; Ok (Some guess))
      else
        (scores <- calculate_scores self ;;
         max_index <- argmax scores ;;
         guess <- Py.getitem (dictionary_backup self) max_index ;;
         Ok (Some guess))
  end.

Definition AgentFunction (self : WordleAgent) (p : percepts)
    : result (option word) * WordleAgent :=
  let '(guess_counter, _, _) := p in
  let self := set_counter self (last_guess_counter self + 1) in
  match get_first_guess self with
  | (Raise e, self) => (Raise e, self)
  | (Ok _, self) =>
      if guess_counter =? 0 then
        let self := set_counter self 0 in
        let self := set_backup self (dictionary self) in
        (guess <- Py.getitem (dictionary_backup self) (first_guess_index self) ;;
         Ok (Some guess), self)
      else
        match reduce_guesses self p with
        | (Raise e, self) => (Raise e, self)
        | (Ok _, self) =>
            match drop_rejected self guess_counter with
            | (Raise e, self) => (Raise e, self)
            | (Ok _, self) => (next_guess self p, self)
            end
        end
  end.

(** A run of the process: the calls of [AgentFunction] one after the other,
    whatever each of them returns or raises. *)
Fixpoint run (self : WordleAgent) (ps : list percepts) : WordleAgent :=
  match ps with
  | [] => self
  | p :: rest => run (snd (AgentFunction self p)) rest
  end.

(** ** Derived notions used in the statements *)

(** The keep-or-discard decision that [reduce_guesses] takes for one
    candidate. *)
Definition keeps (in_english : word) (letter_states : list Z) (w : word)
    : bool :=
  match removes in_english letter_states w with
  | Ok true => false
  | _ => true
  end.

(** ** Data of the examples *)

Definition alphabet : list ascii := W "ABCDEFGHIJKLMNOPQRSTUVWXYZ".

Definition crane_slate_train : list word :=
  [W "CRANE"; W "SLATE"; W "TRAIN"].

(** A fresh agent over CRANE, SLATE, TRAIN. *)
Definition agent3 : WordleAgent :=
  init crane_slate_train alphabet 5 6 "easy" false.

(** ** The word scorer, as the spec words it *)

(** Whether candidate [c] has, at position [i], the letter that [w] has
    there. *)
Definition same_letter_at (c w : word) (i : nat) : bool :=
  match nth_error c i, nth_error w i with
  | Some a, Some b => Ascii.eqb a b
  | _, _ => false
  end.

(** The fraction of the candidates whose letter at [i] is that of [w]. *)
Definition fraction_at (cands : list word) (w : word) (i : nat) : float :=
  (float_of_nat (length (filter (fun c => same_letter_at c w i) cands))
   / float_of_nat (length cands))%float.

(** The sum over the positions of [p * (1 - p)]. *)
Definition entropy_sum (cands : list word) (w : word) : float :=
  fold_left
    (fun acc i => let p := fraction_at cands w i in (acc + p * (1 - p))%float)
    (seq 0 (length w)) 0%float.

(** The word contains some letter more than once. *)
Definition repeated_letter (w : word) : Prop :=
  exists c, (1 < Py.count c w)%nat.

(** ** The stuck-position score, as the spec words it *)

(** The number of letters of [w] that belong to [possible_letters]. *)
Definition matching_letters (possible_letters : list ascii) (w : word) : nat :=
  length (filter (fun c => Py.contains c possible_letters) w).

Definition repeated_letterb (w : word) : bool :=
  existsb (fun c => Nat.ltb 1 (Py.count c w)) w.

(** The count of matching letters, multiplied by 0.1 when the word has a
    repeated letter. *)
Definition stuck_score_spec (possible_letters : list ascii) (w : word)
    : float :=
  if repeated_letterb w
  then (float_of_nat (matching_letters possible_letters w) * f0_1)%float
  else float_of_nat (matching_letters possible_letters w).

(** A dictionary for the one-slot-left situation _RAIN. *)
Definition rain_dictionary : list word :=
  [W "BRAIN"; W "DRAIN"; W "TRAIN"; W "GRAIN"; W "DADDY"; W "DOUBT"].

(** An agent over [rain_dictionary] that has played its opener. *)
Definition rain_agent : WordleAgent :=
  mkAgent rain_dictionary rain_dictionary alphabet 5 6 "easy" O 0 true.

(** The guess GRAIN answered absent, correct, correct, correct, correct. *)
Definition grain_percepts : percepts :=
  (1, [6; 17; 0; 8; 13], [0; 1; 1; 1; 1]).

(** A dictionary for the one-slot-left situation _EEKS, and an agent over
    it that has played its opener. *)
Definition eeks_dictionary : list word :=
  [W "SEEKS"; W "LEEKS"; W "PEEKS"; W "WEEKS"].

Definition eeks_agent : WordleAgent :=
  mkAgent eeks_dictionary eeks_dictionary alphabet 5 6 "easy" O 0 true.

(** The guess SEEKS answered present-misplaced, then correct four times. *)
Definition seeks_percepts : percepts :=
  (1, [18; 4; 4; 10; 18], [-1; 1; 1; 1; 1]).

(** ** The order of [np.argmax]

    The IEEE order of the scores, with NaN above every score. *)
Definition np_le (x y : float) : bool :=
  PrimFloat.is_nan y || PrimFloat.leb x y.

(** The same order on the specification floats. *)
Definition sf_nan (f : spec_float) : bool :=
  match f with S754_nan => true | _ => false end.

Definition sf_le (a b : spec_float) : bool := sf_nan b || SFleb a b.

(** [m] is the first index of a maximum of [scores] in that order. *)
Definition first_max (scores : list float) (m : nat) : Prop :=
  exists sm,
    nth_error scores m = Some sm
    /\ (forall j sj, nth_error scores j = Some sj -> np_le sj sm = true)
    /\ (forall j sj, (j < m)%nat -> nth_error scores j = Some sj ->
                     np_le sm sj = false).

(** [l] without its element at index [m]. *)
Definition without_nth {A : Type} (m : nat) (l : list A) : list A :=
  firstn m l ++ skipn (S m) l.

(** The words of one dictionary have one length. *)
Definition uniform (ws : list word) : Prop :=
  exists n, Forall (fun c => length c = n) ws.

(** [agent3] after its turn 0. *)
Definition agent3_opened : WordleAgent :=
  snd (AgentFunction agent3 (0, [-1; -1; -1; -1; -1], [0; 0; 0; 0; 0])).

(** The guess SLATE answered correct, then absent four times. *)
Definition slate_percepts : percepts :=
  (1, [18; 11; 0; 19; 4], [1; 0; 0; 0; 0]).

(** [eeks_agent] meets the guess SEEKS answered absent, then correct four
    times, under an external turn index that is one ahead. *)
Definition seeks_rejected_percepts : percepts :=
  (2, [18; 4; 4; 10; 18], [0; 1; 1; 1; 1]).

(** The score that [smart_guess] gives a word: the penalty follows the
    last letter of the word alone. *)
Definition stuck_score_code (possible_letters : list ascii) (w : word)
    : float :=
  let n := matching_letters possible_letters w in
  match rev w with
  | c :: _ =>
      if Py.contains c possible_letters && Nat.ltb 1 (Py.count c w)
      then (float_of_nat n * f0_1)%float
      else float_of_nat n
  | [] => float_of_nat n
  end.

(** ** Notions for the further properties *)

(** What the feedback at position [i] asks of a candidate [w]: the guessed
    letter there when the state is correct; the guessed letter elsewhere
    but not there when it is present-misplaced; and, when it is absent and
    the candidate has the guessed letter, that the guess has the letter
    more than once and the candidate has another letter there.  A position
    without a state or without a guessed letter asks nothing. *)
Definition consistent_at (g : word) (letter_states : list Z) (w : word)
    (i : nat) : Prop :=
  match nth_error letter_states i, nth_error g i, nth_error w i with
  | Some s, Some L, Some c =>
      (s = 1 -> c = L)
      /\ (s = -1 -> In L w /\ c <> L)
      /\ (s = 0 -> In L w -> Py.count L g <> 1%nat /\ c <> L)
  | _, _, _ => True
  end.

(** The guess CRANE answered as it is when TRAIN is the solution: absent,
    correct, correct, present-misplaced, absent. *)
Definition crane_percepts : percepts :=
  (1, [2; 17; 0; 13; 4], [0; 1; 1; -1; 0]).

(** The guess SLATE answered as it is when TRAIN is the solution: absent,
    absent, correct, present-misplaced, absent. *)
Definition slate_train_percepts : percepts :=
  (2, [18; 11; 0; 19; 4], [0; 0; 1; -1; 0]).

(** A fresh agent over CRANE, SLATE, TRAIN, BRAIN. *)
Definition agent4 : WordleAgent :=
  init [W "CRANE"; W "SLATE"; W "TRAIN"; W "BRAIN"] alphabet 5 6 "easy" false.

(** An agent over an empty dictionary. *)
Definition empty_agent : WordleAgent := init [] alphabet 5 6 "easy" false.

(** [eeks_agent] after a turn on which the external index 1 was repeated
    while the internal counter had reached 2. *)
Definition seeks_repeated_percepts : percepts :=
  (1, [18; 4; 4; 10; 18], [0; 1; 1; 1; 1]).

(** [rain_agent] with the empty word put in front of its dictionary. *)
Definition blank_agent : WordleAgent :=
  mkAgent ([] :: rain_dictionary) rain_dictionary alphabet 5 6 "easy" O 0 true.

(** The state in which a turn other than turn 0 leaves the reducer: the
    counter incremented, the candidates filtered. *)
Definition after_reducer (self : WordleAgent) (g : word)
    (letter_states : list Z) : WordleAgent :=
  set_backup (set_counter self (last_guess_counter self + 1))
    (filter (keeps g letter_states) (dictionary_backup self)).

(** The letters that the candidates have at position [grey_pos]. *)
Definition letters_at (grey_pos : nat) (backup : list word) : list ascii :=
  map (fun w => nth grey_pos w Ascii.zero) backup.

(** [agent4] after its opener. *)
Definition agent4_opened : WordleAgent :=
  snd (AgentFunction agent4 (0, [], [])).

(** The guess SLATE answered as it is when TRAIN is the solution, under an
    external turn index that the game has repeated. *)
Definition slate_rejected_percepts : percepts :=
  (1, [18; 11; 0; 19; 4], [0; 0; 1; -1; 0]).

(** * Properties *)

(** ** Python built-ins *)

Section PyFacts.

Lemma str_eqb_eq (a b : word) : Py.str_eqb a b = true <-> a = b.
Proof.
  revert b; induction a as [|x a IH]; intros [|y b]; simpl;
    try (split; congruence).
  rewrite andb_true_iff, Ascii.eqb_eq, IH.
  split; [intros [-> ->]; reflexivity | intros H; injection H; auto].
Qed.

Lemma str_eqb_refl (a : word) : Py.str_eqb a a = true.
Proof. apply str_eqb_eq; reflexivity. Qed.

Lemma str_eqb_neq (a b : word) : Py.str_eqb a b = false <-> a <> b.
Proof.
  rewrite <- str_eqb_eq. destruct (Py.str_eqb a b); split; congruence.
Qed.

Lemma contains_In (c : ascii) (w : word) : Py.contains c w = true <-> In c w.
Proof.
  unfold Py.contains. rewrite existsb_exists. split.
  - intros (x & Hx & E). apply Ascii.eqb_eq in E. subst; assumption.
  - intros H. exists c. split; [assumption | apply Ascii.eqb_refl].
Qed.

Lemma getitem_Ok {A : Type} (l : list A) (i : nat) (a : A) :
  Py.getitem l i = Ok a <-> nth_error l i = Some a.
Proof.
  unfold Py.getitem. destruct (nth_error l i); split; congruence.
Qed.

Lemma getitem_lt {A : Type} (l : list A) (i : nat) :
  (i < length l)%nat -> exists a, Py.getitem l i = Ok a.
Proof.
  intros H. unfold Py.getitem.
  destruct (nth_error l i) eqn:E; [eauto|].
  apply nth_error_None in E. lia.
Qed.

Lemma getitem_In {A : Type} (l : list A) (i : nat) (a : A) :
  Py.getitem l i = Ok a -> In a l.
Proof. rewrite getitem_Ok. apply nth_error_In. Qed.

Lemma remove_length (w : word) (l l' : list word) :
  Py.remove w l = Ok l' -> length l = S (length l').
Proof.
  revert l'; induction l as [|x t IH]; simpl; intros l' H; [discriminate|].
  destruct (Py.str_eqb x w); [injection H as <-; reflexivity|].
  destruct (Py.remove w t) as [t'|e]; simpl in H; [|discriminate].
  injection H as <-. simpl. f_equal. apply IH. reflexivity.
Qed.

Lemma remove_incl (w : word) (l l' : list word) :
  Py.remove w l = Ok l' -> incl l' l.
Proof.
  revert l'; induction l as [|x t IH]; simpl; intros l' H; [discriminate|].
  destruct (Py.str_eqb x w).
  - injection H as <-. apply incl_tl, incl_refl.
  - destruct (Py.remove w t) as [t'|e]; simpl in H; [|discriminate].
    injection H as <-. apply incl_cons; [left; reflexivity|].
    apply incl_tl, IH. reflexivity.
Qed.

(** Removing a word that the front part of the list does not hold takes
    it from the back part. *)
Lemma remove_app (w : word) (kept rest : list word) :
  ~ In w kept -> Py.remove w (kept ++ w :: rest) = Ok (kept ++ rest).
Proof.
  induction kept as [|x k IH]; simpl; intros H.
  - rewrite str_eqb_refl. reflexivity.
  - destruct (Py.str_eqb x w) eqn:E.
    + apply str_eqb_eq in E. exfalso. apply H. left. assumption.
    + rewrite IH by (intros F; apply H; right; assumption). reflexivity.
Qed.

End PyFacts.

(** ** The candidate reducer *)

Section Reducer.

Variables (in_english : word) (letter_states : list Z).

Lemma reduce_loop_shrinks (dict_copy backup : list word) :
  let b' := snd (reduce_loop in_english letter_states dict_copy backup) in
  (length b' <= length backup)%nat /\ incl b' backup.
Proof.
  revert backup; induction dict_copy as [|w rest IH]; intros backup; simpl.
  - split; [lia | apply incl_refl].
  - destruct (removes in_english letter_states w) as [[|]|e]; simpl.
    + destruct (Py.remove w backup) as [b1|e] eqn:R; simpl.
      * destruct (IH b1) as [L I]. apply remove_length in R as RL.
        apply remove_incl in R. split; [lia|].
        eapply incl_tran; eassumption.
      * split; [lia | apply incl_refl].
    + apply IH.
    + split; [lia | apply incl_refl].
Qed.

(** A normal return means that no candidate of the snapshot raised. *)
Lemma reduce_loop_Ok_inv (dict_copy backup b' : list word) :
  reduce_loop in_english letter_states dict_copy backup = (Ok tt, b') ->
  Forall (fun w => exists b, removes in_english letter_states w = Ok b)
    dict_copy.
Proof.
  revert backup; induction dict_copy as [|w rest IH]; intros backup H;
    [constructor|].
  simpl in H.
  destruct (removes in_english letter_states w) as [[|]|e] eqn:E;
    [| |discriminate].
  - destruct (Py.remove w backup) as [b1|e]; [|discriminate].
    constructor; [eauto | eapply IH; eassumption].
  - constructor; [eauto | eapply IH; eassumption].
Qed.

(** The mutate-while-iterating loop is a filter: with [kept] the
    candidates already passed and [rest] those still to visit. *)
Lemma reduce_loop_filter (rest kept : list word) :
  Forall (fun w => removes in_english letter_states w = Ok false) kept ->
  Forall (fun w => exists b, removes in_english letter_states w = Ok b)
    rest ->
  reduce_loop in_english letter_states rest (kept ++ rest)
  = (Ok tt, kept ++ filter (keeps in_english letter_states) rest).
Proof.
  revert kept; induction rest as [|w rest IH]; intros kept Hk Hr; simpl.
  - reflexivity.
  - inversion Hr as [|? ? [b Hb] Hr']; subst. unfold keeps at 1.
    rewrite Hb. destruct b.
    + rewrite remove_app.
      * apply IH; assumption.
      * intros Hin. rewrite Forall_forall in Hk.
        specialize (Hk _ Hin). congruence.
    + replace (kept ++ w :: rest) with ((kept ++ [w]) ++ rest)
        by (rewrite <- app_assoc; reflexivity).
      rewrite IH; [rewrite <- app_assoc; reflexivity | | assumption].
      apply Forall_app. split; [assumption | constructor; [assumption|constructor]].
Qed.

End Reducer.

Lemma reduce_guesses_filter (self self' : WordleAgent) (gc : Z)
    (idx letter_states : list Z) :
  reduce_guesses self (gc, idx, letter_states) = (Ok tt, self') ->
  exists in_english,
    letter_indices_to_word idx (letters self) = Ok in_english
    /\ self' = set_backup self
                 (filter (keeps in_english letter_states) (dictionary_backup self)).
Proof.
  unfold reduce_guesses.
  destruct (letter_indices_to_word idx (letters self)) as [g|e]; [|discriminate].
  destruct (reduce_loop g letter_states (dictionary_backup self)
              (dictionary_backup self)) as [r b] eqn:E.
  intros H. injection H as -> <-. exists g. split; [reflexivity|].
  pose proof (reduce_loop_Ok_inv _ _ _ _ _ E) as Hall.
  pose proof (reduce_loop_filter g letter_states (dictionary_backup self) []
                (Forall_nil _) Hall) as F.
  simpl in F. rewrite E in F. injection F as ->. reflexivity.
Qed.

(** C7: whatever the percepts, and whether [reduce_guesses] returns or
    raises, the candidate set it leaves is no larger than the one it found,
    and every word it leaves was there before: the reducer never adds. *)
Theorem reduce_guesses_shrinks (self : WordleAgent) (p : percepts) :
  let self' := snd (reduce_guesses self p) in
  (length (dictionary_backup self') <= length (dictionary_backup self))%nat
  /\ (forall w, In w (dictionary_backup self') -> In w (dictionary_backup self)).
Proof.
  destruct p as [[gc idx] letter_states]. unfold reduce_guesses.
  destruct (letter_indices_to_word idx (letters self)) as [g|e]; simpl.
  - pose proof (reduce_loop_shrinks g letter_states (dictionary_backup self)
                  (dictionary_backup self)) as H.
    destruct (reduce_loop g letter_states (dictionary_backup self)
                (dictionary_backup self)) as [r b].
    simpl in *. exact H.
  - split; [lia | auto].
Qed.

Section ReduceWord.

Variables (in_english : word) (letter_states : list Z) (w : word).

Lemma reduce_word_false_iff (positions : list nat) :
  reduce_word in_english letter_states w positions = Ok false
  <-> forall i, In i positions ->
        reduce_at in_english letter_states w i = Ok false.
Proof.
  induction positions as [|i rest IH]; simpl.
  - split; [intros _ i [] | reflexivity].
  - destruct (reduce_at in_english letter_states w i) as [[|]|e] eqn:E;
      simpl.
    + split; [discriminate|]. intros H.
      specialize (H i (or_introl eq_refl)). congruence.
    + rewrite IH. split.
      * intros H j [<-|Hj]; [assumption | apply H; assumption].
      * intros H j Hj. apply H. right. assumption.
    + split; [discriminate|]. intros H.
      specialize (H i (or_introl eq_refl)). congruence.
Qed.

Lemma reduce_word_true_inv (positions : list nat) :
  reduce_word in_english letter_states w positions = Ok true ->
  exists i, In i positions
            /\ reduce_at in_english letter_states w i = Ok true.
Proof.
  induction positions as [|i rest IH]; simpl; [discriminate|].
  destruct (reduce_at in_english letter_states w i) as [[|]|e] eqn:E;
    simpl; [| |discriminate].
  - intros _. exists i. auto.
  - intros H. destruct (IH H) as (j & Hj & Ej). exists j. auto.
Qed.

Lemma reduce_word_total (positions : list nat) :
  (forall i, In i positions ->
     exists b, reduce_at in_english letter_states w i = Ok b) ->
  exists b, reduce_word in_english letter_states w positions = Ok b.
Proof.
  induction positions as [|i rest IH]; simpl; intros H; [eauto|].
  destruct (H i (or_introl eq_refl)) as [[|] ->]; simpl; [eauto|].
  apply IH. intros j Hj. apply H. right. assumption.
Qed.

(** A position that fires decides the candidate, once the scan returns. *)
Lemma removes_fired (i : nat) (b : bool) :
  (i < length w)%nat ->
  reduce_at in_english letter_states w i = Ok true ->
  removes in_english letter_states w = Ok b ->
  b = true.
Proof.
  intros Hi Hat Hr. destruct b; [reflexivity|].
  unfold removes in Hr. rewrite reduce_word_false_iff in Hr.
  specialize (Hr i). rewrite in_seq in Hr.
  rewrite Hr in Hat by lia. discriminate.
Qed.

End ReduceWord.

(** ** All positions correct *)

Lemma nth_error_ext_eq {A : Type} (l1 l2 : list A) :
  length l1 = length l2 ->
  (forall i, (i < length l1)%nat -> nth_error l1 i = nth_error l2 i) ->
  l1 = l2.
Proof.
  revert l2; induction l1 as [|x t IH]; intros [|y u]; simpl;
    try discriminate; [reflexivity|].
  intros L H. injection L as L.
  pose proof (H O ltac:(lia)) as H0. simpl in H0. injection H0 as ->.
  f_equal. apply IH; [assumption|].
  intros i Hi. apply (H (S i)). lia.
Qed.

Lemma reduce_at_correct (g w : word) (i : nat) (a b : ascii) :
  nth_error g i = Some a -> nth_error w i = Some b ->
  reduce_at g (repeat 1 (length g)) w i = Ok (negb (Ascii.eqb a b)).
Proof.
  intros Hg Hw. unfold reduce_at, Py.getitem.
  assert (Hi : (i < length g)%nat) by (apply nth_error_Some; congruence).
  rewrite nth_error_repeat by assumption. simpl.
  rewrite Hg, Hw. reflexivity.
Qed.

Lemma keeps_all_correct (g w : word) :
  length w = length g ->
  keeps g (repeat 1 (length g)) w = Py.str_eqb w g.
Proof.
  intros L. unfold keeps.
  assert (Hat : forall i, (i < length w)%nat ->
            exists a b, nth_error g i = Some a /\ nth_error w i = Some b
              /\ reduce_at g (repeat 1 (length g)) w i
                 = Ok (negb (Ascii.eqb a b))).
  { intros i Hi.
    destruct (nth_error g i) as [a|] eqn:Ea;
      [|apply nth_error_None in Ea; lia].
    destruct (nth_error w i) as [b|] eqn:Eb;
      [|apply nth_error_None in Eb; lia].
    exists a, b. repeat split. apply reduce_at_correct; assumption. }
  destruct (reduce_word_total g (repeat 1 (length g)) w (seq 0 (length w)))
    as [r Hr].
  { intros i Hi. apply in_seq in Hi.
    destruct (Hat i) as (a & b & _ & _ & E); [lia | eauto]. }
  unfold removes. rewrite Hr. destruct r.
  - symmetry. apply str_eqb_neq. intros ->.
    apply reduce_word_true_inv in Hr. destruct Hr as (i & Hi & E).
    apply in_seq in Hi. destruct (Hat i) as (a & b & Ea & Eb & E'); [lia|].
    rewrite E' in E. rewrite Ea in Eb. injection Eb as ->.
    rewrite Ascii.eqb_refl in E. discriminate.
  - symmetry. apply str_eqb_eq. apply nth_error_ext_eq; [assumption|].
    intros i Hi. rewrite reduce_word_false_iff in Hr.
    destruct (Hat i Hi) as (a & b & Ea & Eb & E').
    rewrite Hr in E' by (apply in_seq; lia).
    injection E' as E'. symmetry in E'. apply negb_false_iff in E'.
    apply Ascii.eqb_eq in E'. congruence.
Qed.

Lemma removes_all_correct_Ok (g w : word) :
  length w = length g ->
  exists b, removes g (repeat 1 (length g)) w = Ok b.
Proof.
  intros L. apply reduce_word_total. intros i Hi. apply in_seq in Hi.
  destruct (nth_error g i) as [a|] eqn:Ea;
    [|apply nth_error_None in Ea; lia].
  destruct (nth_error w i) as [b|] eqn:Eb;
    [|apply nth_error_None in Eb; lia].
  erewrite reduce_at_correct by eassumption. eauto.
Qed.

Lemma all_equal_NoDup {A : Type} (a : A) (l : list A) :
  NoDup l -> In a l -> (forall x, In x l -> x = a) -> l = [a].
Proof.
  intros ND Hin Hall. destruct l as [|x [|y t]]; [destruct Hin | |].
  - f_equal. apply Hall. left. reflexivity.
  - exfalso. inversion ND as [|? ? Hx _]; subst. apply Hx.
    rewrite (Hall x) by (left; reflexivity).
    rewrite (Hall y) by (right; left; reflexivity). left. reflexivity.
Qed.

(** C5: when the guessed word is [W], every state is correct and [W] is a
    candidate (the candidates having the length of [W], as the words of one
    dictionary have), [reduce_guesses] returns and leaves exactly the
    candidates equal to [W]: the set {W}, and the list [[W]] when the
    candidate list has no duplicates. *)
Theorem reduce_guesses_all_correct (self : WordleAgent) (gc : Z)
    (idx : list Z) (W0 : word) :
  letter_indices_to_word idx (letters self) = Ok W0 ->
  In W0 (dictionary_backup self) ->
  Forall (fun c => length c = length W0) (dictionary_backup self) ->
  exists self',
    reduce_guesses self (gc, idx, repeat 1 (length W0)) = (Ok tt, self')
    /\ (forall x, In x (dictionary_backup self') <-> x = W0)
    /\ (NoDup (dictionary_backup self) -> dictionary_backup self' = [W0]).
Proof.
  intros Hdec Hin Hlen.
  set (b' := filter (fun c => Py.str_eqb c W0) (dictionary_backup self)).
  assert (Hred : reduce_guesses self (gc, idx, repeat 1 (length W0))
                 = (Ok tt, set_backup self b')).
  { unfold reduce_guesses. rewrite Hdec.
    pose proof (reduce_loop_filter W0 (repeat 1 (length W0))
                  (dictionary_backup self) [] (Forall_nil _)) as F.
    simpl in F. rewrite F.
    - f_equal. f_equal. apply filter_ext_in. intros c Hc.
      rewrite Forall_forall in Hlen. apply keeps_all_correct, Hlen, Hc.
    - rewrite Forall_forall in *. intros c Hc.
      apply removes_all_correct_Ok, Hlen, Hc. }
  assert (Hmem : forall x, In x b' <-> x = W0).
  { intros x. unfold b'. rewrite filter_In, str_eqb_eq. split.
    - tauto.
    - intros ->. auto. }
  exists (set_backup self b'). split; [assumption|]. split; [exact Hmem|].
  intros ND. simpl. apply all_equal_NoDup.
  - apply NoDup_filter. assumption.
  - apply Hmem. reflexivity.
  - intros x Hx. apply Hmem. assumption.
Qed.

Lemma reduce_guesses_all_correct_witness :
  exists self',
    reduce_guesses agent3 (1, [18; 11; 0; 19; 4], repeat 1 (length (W "SLATE"))) = (Ok tt, self')
    /\ (forall x, In x (dictionary_backup self') <-> x = W "SLATE")
    /\ (NoDup (dictionary_backup agent3) -> dictionary_backup self' = [W "SLATE"]).
Proof.
  apply (reduce_guesses_all_correct agent3 1 [18; 11; 0; 19; 4] (W "SLATE")).
  - reflexivity.
  - simpl. auto.
  - repeat constructor.
Defined.

(** ** The absent rule *)

(** The candidates scanned on a normal return. *)
Lemma reduce_guesses_scans (self self' : WordleAgent) (gc : Z)
    (idx letter_states : list Z) (g : word) :
  letter_indices_to_word idx (letters self) = Ok g ->
  reduce_guesses self (gc, idx, letter_states) = (Ok tt, self') ->
  Forall (fun w => exists b, removes g letter_states w = Ok b)
    (dictionary_backup self).
Proof.
  intros Hdec Hred. unfold reduce_guesses in Hred. rewrite Hdec in Hred.
  destruct (reduce_loop g letter_states (dictionary_backup self)
              (dictionary_backup self)) as [r b] eqn:E.
  injection Hred as -> _. eapply reduce_loop_Ok_inv. eassumption.
Qed.

Lemma reduce_guesses_from_scans (self : WordleAgent) (gc : Z)
    (idx letter_states : list Z) (g : word) :
  letter_indices_to_word idx (letters self) = Ok g ->
  Forall (fun w => exists b, removes g letter_states w = Ok b)
    (dictionary_backup self) ->
  reduce_guesses self (gc, idx, letter_states)
  = (Ok tt,
     set_backup self (filter (keeps g letter_states) (dictionary_backup self))).
Proof.
  intros Hdec Hall. unfold reduce_guesses. rewrite Hdec.
  pose proof (reduce_loop_filter g letter_states (dictionary_backup self) []
                (Forall_nil _) Hall) as F.
  simpl in F. rewrite F. reflexivity.
Qed.

Lemma reduce_at_Ok (g : word) (st : list Z) (w : word) (i : nat) :
  (i < length st)%nat -> (i < length g)%nat -> (i < length w)%nat ->
  exists b, reduce_at g st w i = Ok b.
Proof.
  intros Hs Hg Hw. unfold reduce_at.
  destruct (getitem_lt st i Hs) as [s ->].
  destruct (getitem_lt g i Hg) as [L ->].
  destruct (getitem_lt w i Hw) as [c ->]. simpl.
  destruct (s =? 0).
  - destruct (Py.contains L w); [|eauto].
    destruct (Nat.eqb (Py.count L g) 1); eauto.
  - destruct (s =? 1); [eauto|].
    destruct (s =? -1); [|eauto].
    destruct (negb (Py.contains L w)); eauto.
Qed.

Lemma scans_of_lengths (g : word) (st : list Z) (ws : list word) :
  Forall (fun w => (length w <= length st)%nat /\ (length w <= length g)%nat)
    ws ->
  Forall (fun w => exists b, removes g st w = Ok b) ws.
Proof.
  intros H. eapply Forall_impl; [|exact H]. simpl. intros w [Hs Hg].
  apply reduce_word_total. intros i Hi. apply in_seq in Hi.
  apply reduce_at_Ok; lia.
Qed.

(** C4: when the feedback and the guess cover every position of every
    candidate, [reduce_guesses] returns, and with state absent at position
    [i] for the guessed letter [L] it treats each candidate [w] as follows.
    The step at [i] removes [w] only if [w] contains [L].  When [L] occurs
    once in the guess and [w] contains [L], the step at [i] removes [w] and
    [w] is not in the candidate set that the reducer leaves.  When [L]
    occurs more than once in the guess, the step at [i] removes [w] only if
    [w] has [L] at [i].  And a candidate that the reducer has removed, no
    other position having removed it, contains [L], and has [L] at [i] when
    [L] occurs more than once in the guess. *)
Theorem reduce_guesses_absent_rule (self : WordleAgent) (gc : Z)
    (idx letter_states : list Z) (g : word) (i : nat) (L : ascii) :
  letter_indices_to_word idx (letters self) = Ok g ->
  Forall (fun w => (length w <= length letter_states)%nat
                   /\ (length w <= length g)%nat) (dictionary_backup self) ->
  nth_error letter_states i = Some 0 ->
  nth_error g i = Some L ->
  exists self',
    reduce_guesses self (gc, idx, letter_states) = (Ok tt, self')
    /\ forall w,
         In w (dictionary_backup self) ->
         (i < length w)%nat ->
         (reduce_at g letter_states w i = Ok true -> In L w)
         /\ (Py.count L g = 1%nat -> In L w ->
             reduce_at g letter_states w i = Ok true
             /\ ~ In w (dictionary_backup self'))
         /\ ((1 < Py.count L g)%nat ->
             reduce_at g letter_states w i = Ok true ->
             nth_error w i = Some L)
         /\ (~ In w (dictionary_backup self') ->
             (forall k, (k < length w)%nat -> k <> i ->
                reduce_at g letter_states w k = Ok false) ->
             In L w /\ ((1 < Py.count L g)%nat -> nth_error w i = Some L)).
Proof.
  intros Hdec Hlen Hs Hg.
  pose proof (scans_of_lengths g letter_states _ Hlen) as Hscan.
  exists (set_backup self
            (filter (keeps g letter_states) (dictionary_backup self))).
  split; [apply reduce_guesses_from_scans; assumption|].
  intros w Hin Hi. simpl.
  destruct (nth_error w i) as [c|] eqn:Hw; [|apply nth_error_None in Hw; lia].
  assert (Hat : reduce_at g letter_states w i
                = Ok (Py.contains L w
                      && (Nat.eqb (Py.count L g) 1 || Ascii.eqb L c))).
  { unfold reduce_at, Py.getitem. rewrite Hs, Hg, Hw. simpl.
    destruct (Py.contains L w); simpl; [|reflexivity].
    destruct (Nat.eqb (Py.count L g) 1); reflexivity. }
  assert (P1 : reduce_at g letter_states w i = Ok true -> In L w).
  { rewrite Hat. intros H. injection H as H.
    apply andb_true_iff in H. apply contains_In. tauto. }
  assert (P2 : Py.count L g = 1%nat -> In L w ->
               reduce_at g letter_states w i = Ok true).
  { intros Hc HL. rewrite Hat. apply contains_In in HL.
    rewrite HL, Hc. reflexivity. }
  assert (P3 : (1 < Py.count L g)%nat ->
               reduce_at g letter_states w i = Ok true -> Some c = Some L).
  { intros Hc. rewrite Hat. intros H. injection H as H.
    apply andb_true_iff in H. destruct H as [_ H].
    apply orb_true_iff in H. destruct H as [H|H].
    - apply Nat.eqb_eq in H. lia.
    - apply Ascii.eqb_eq in H. congruence. }
  rewrite Forall_forall in Hscan. destruct (Hscan w Hin) as [rb Hrb].
  assert (Hgone : ~ In w (filter (keeps g letter_states)
                            (dictionary_backup self)) <-> rb = true).
  { rewrite filter_In. unfold keeps. rewrite Hrb. destruct rb.
    - split; [reflexivity|]. intros _ [_ F]. discriminate.
    - split; [|discriminate]. intros F. exfalso. apply F. auto. }
  split; [exact P1|]. split; [|split].
  - intros Hc HL. split; [apply P2; assumption|].
    apply Hgone.
    apply (removes_fired g letter_states w i rb Hi (P2 Hc HL) Hrb).
  - exact P3.
  - intros Hout Hothers. apply Hgone in Hout. subst rb.
    apply reduce_word_true_inv in Hrb. destruct Hrb as (k & Hk & Ek).
    apply in_seq in Hk. destruct (Nat.eq_dec k i) as [->|Hne].
    + split; [apply P1; assumption|]. intros Hc. apply P3; assumption.
    + rewrite Hothers in Ek by lia. discriminate.
Qed.

Lemma reduce_guesses_absent_rule_witness :
  exists self',
    reduce_guesses agent3 (1, [18; 11; 0; 19; 4], [1; 0; 0; 0; 0])
    = (Ok tt, self')
    /\ reduce_at (W "SLATE") [1; 0; 0; 0; 0] (W "SLATE") 1 = Ok true
    /\ ~ In (W "SLATE") (dictionary_backup self').
Proof.
  destruct (reduce_guesses_absent_rule agent3 1 [18; 11; 0; 19; 4]
              [1; 0; 0; 0; 0] (W "SLATE") 1 "L"%char)
    as (self' & Hred & Hall).
  - reflexivity.
  - repeat constructor.
  - reflexivity.
  - reflexivity.
  - exists self'. split; [exact Hred|].
    apply (Hall (W "SLATE")).
    + simpl. auto.
    + simpl. lia.
    + reflexivity.
    + simpl. auto.
Defined.

(** ** The CRANE, SLATE, TRAIN example *)

(** C1, as the code has it: over CRANE, SLATE, TRAIN, the guess SLATE with
    position 0 correct and every other position absent empties the candidate
    set.  CRANE and TRAIN go at position 0; SLATE goes at position 1, since
    it contains the L that the feedback marks absent. *)
Theorem reduce_guesses_slate_example :
  reduce_guesses agent3 (1, [18; 11; 0; 19; 4], [1; 0; 0; 0; 0])
  = (Ok tt, set_backup agent3 []).
Proof. vm_compute. reflexivity. Qed.

(** C1, as the spec words it, fails: the candidate set left is not
    [[SLATE]]. *)
Lemma reduce_guesses_slate_example_not_kept :
  letter_indices_to_word [18; 11; 0; 19; 4] (letters agent3) = Ok (W "SLATE")
  /\ dictionary_backup
       (snd (reduce_guesses agent3 (1, [18; 11; 0; 19; 4], [1; 0; 0; 0; 0])))
     <> [W "SLATE"].
Proof. split; [reflexivity | vm_compute; discriminate]. Qed.

(** ** The word scorer *)

Section Scorer.

Variable self : WordleAgent.

Local Abbreviation cands := (dictionary_backup self).

Lemma probability_loop_filter (backup : list word) (w : word) (i : nat)
    (c : ascii) (freq : nat) :
  nth_error w i = Some c ->
  Forall (fun x => (i < length x)%nat) backup ->
  probability_loop backup c i freq
  = Ok (freq + length (filter (fun x => same_letter_at x w i) backup))%nat.
Proof.
  intros Hw. revert freq.
  induction backup as [|x t IH]; intros freq Hall; simpl.
  - f_equal. lia.
  - inversion Hall as [|? ? Hx Ht]; subst.
    destruct (nth_error x i) as [a|] eqn:Ea;
      [|apply nth_error_None in Ea; lia].
    assert (E : same_letter_at x w i = Ascii.eqb a c)
      by (unfold same_letter_at; rewrite Ea, Hw; reflexivity).
    unfold Py.getitem. rewrite Ea, E. simpl. rewrite IH by assumption.
    destruct (Ascii.eqb a c); simpl; f_equal; lia.
Qed.

Lemma entropy_fraction (w : word) (i : nat) (c : ascii) :
  nth_error w i = Some c ->
  cands <> [] ->
  Forall (fun x => (i < length x)%nat) cands ->
  entropy self c i
  = Ok (let p := fraction_at cands w i in p * (1 - p))%float.
Proof.
  intros Hw Hne Hall. unfold entropy, probability. fold cands.
  rewrite (probability_loop_filter cands w i c O Hw Hall). simpl.
  destruct cands as [|x t] eqn:E; [congruence|]. reflexivity.
Qed.

Lemma score_loop_spec (w : word) (positions : list nat) (s : float)
    (d : bool) :
  cands <> [] ->
  Forall (fun i => (i < length w)%nat
                   /\ Forall (fun x => (i < length x)%nat) cands)
    positions ->
  score_loop self w positions s d
  = Ok (fold_left
          (fun acc i =>
             let p := fraction_at cands w i in (acc + p * (1 - p))%float)
          positions s,
        d || existsb
               (fun i => match nth_error w i with
                         | Some c => Nat.ltb 1 (Py.count c w)
                         | None => false
                         end) positions).
Proof.
  intros Hne. revert s d.
  induction positions as [|i rest IH]; intros s d Hall; simpl.
  - rewrite orb_false_r. reflexivity.
  - inversion Hall as [|? ? [Hi Hc] Hrest]; subst.
    unfold Py.getitem at 1.
    destruct (nth_error w i) as [c|] eqn:Ec;
      [|apply nth_error_None in Ec; lia].
    simpl. rewrite (entropy_fraction w i c Ec Hne Hc). simpl.
    rewrite IH by assumption. f_equal. f_equal.
    destruct (Nat.ltb 1 (Py.count c w)), d; reflexivity.
Qed.

End Scorer.

Lemma count_pos_In (c : ascii) (w : word) :
  (0 < Py.count c w)%nat -> In c w.
Proof.
  induction w as [|x t IH]; simpl; [lia|].
  destruct (Ascii.eqb x c) eqn:E.
  - apply Ascii.eqb_eq in E. auto.
  - auto.
Qed.

Lemma repeated_letter_positions (w : word) :
  existsb (fun i => match nth_error w i with
                    | Some c => Nat.ltb 1 (Py.count c w)
                    | None => false
                    end) (seq 0 (length w)) = true
  <-> repeated_letter w.
Proof.
  rewrite existsb_exists. split.
  - intros (i & _ & H). destruct (nth_error w i) as [c|]; [|discriminate].
    exists c. apply Nat.ltb_lt. assumption.
  - intros (c & Hc).
    assert (Hin : In c w) by (apply count_pos_In; lia).
    apply In_nth_error in Hin. destruct Hin as [i Hi]. exists i. split.
    + apply in_seq. split; [lia|]. simpl. apply nth_error_Some. congruence.
    + rewrite Hi. apply Nat.ltb_lt. assumption.
Qed.

(** [score] in closed form: the flag is raised by a position whose letter
    the word has more than once. *)
Lemma score_eq (self : WordleAgent) (w : word) :
  dictionary_backup self <> [] ->
  Forall (fun c => (length w <= length c)%nat) (dictionary_backup self) ->
  score self w
  = Ok (if existsb (fun i => match nth_error w i with
                             | Some c => Nat.ltb 1 (Py.count c w)
                             | None => false
                             end) (seq 0 (length w))
        then (entropy_sum (dictionary_backup self) w * f0_9)%float
        else entropy_sum (dictionary_backup self) w).
Proof.
  intros Hne Hlen.
  assert (Hall : Forall (fun i => (i < length w)%nat
                   /\ Forall (fun x => (i < length x)%nat)
                        (dictionary_backup self)) (seq 0 (length w))).
  { apply Forall_forall. intros i Hi. apply in_seq in Hi. split; [lia|].
    eapply Forall_impl; [|exact Hlen]. simpl. intros; lia. }
  unfold score.
  rewrite (score_loop_spec self w (seq 0 (length w)) 0%float false Hne Hall).
  reflexivity.
Qed.

(** C8: over a non-empty candidate set whose words are at least as long as
    the scored word, [score] returns the sum, over the positions, of
    [p * (1 - p)] with [p] the fraction of the candidates that have the
    word's letter at that position; the sum is multiplied by 0.9 when the
    word has a repeated letter, and only then. *)
Theorem score_entropy_sum (self : WordleAgent) (w : word) :
  dictionary_backup self <> [] ->
  Forall (fun c => (length w <= length c)%nat) (dictionary_backup self) ->
  (repeated_letter w ->
   score self w = Ok (entropy_sum (dictionary_backup self) w * f0_9)%float)
  /\ (~ repeated_letter w ->
      score self w = Ok (entropy_sum (dictionary_backup self) w)).
Proof.
  intros Hne Hlen. rewrite (score_eq self w Hne Hlen).
  pose proof (repeated_letter_positions w) as R.
  destruct (existsb _ (seq 0 (length w))).
  - split; [reflexivity|]. intros N. exfalso. apply N, R. reflexivity.
  - split; [|reflexivity]. intros H. apply R in H. discriminate.
Qed.

Lemma score_entropy_sum_witness :
  (repeated_letter (W "SLATE") ->
   score agent3 (W "SLATE")
   = Ok (entropy_sum (dictionary_backup agent3) (W "SLATE") * f0_9)%float)
  /\ (~ repeated_letter (W "SLATE") ->
      score agent3 (W "SLATE")
      = Ok (entropy_sum (dictionary_backup agent3) (W "SLATE"))).
Proof.
  apply (score_entropy_sum agent3 (W "SLATE")).
  - discriminate.
  - repeat constructor.
Defined.

(** ** The stuck-position heuristic *)

(** What the inner loop of [smart_guess] leaves: the score counts the
    matching letters, and the flag only remembers the last letter visited,
    since the loop sets it to [False] at every letter. *)
Lemma smart_chars_spec (possible_letters : list ascii) (w chars : word)
    (sc : nat) (dl : option bool) :
  smart_chars possible_letters w chars sc dl
  = ((sc + matching_letters possible_letters chars)%nat,
     match rev chars with
     | [] => dl
     | c :: _ =>
         Some (Py.contains c possible_letters && Nat.ltb 1 (Py.count c w))
     end).
Proof.
  revert sc dl; induction chars as [|c rest IH]; intros sc dl; simpl.
  - f_equal. unfold matching_letters. simpl. lia.
  - unfold matching_letters in *. simpl.
    destruct (Py.contains c possible_letters) eqn:E; rewrite IH; simpl.
    + f_equal; [lia|]. destruct (rev rest) as [|y r] eqn:R; simpl.
      * rewrite E. destruct (Nat.ltb 1 (Py.count c w)); reflexivity.
      * reflexivity.
    + f_equal. destruct (rev rest) as [|y r] eqn:R; simpl.
      * rewrite E. reflexivity.
      * reflexivity.
Qed.

(** C2 at the failing input: with possible letters B, D, T the code scores
    DADDY 3, not the 3 * 0.1 that its three D's call for, because the last
    letter Y is no possible letter; the heuristic then answers DADDY, where
    the penalised scores would have made DOUBT the answer. *)
Theorem smart_guess_daddy_unpenalised :
  possible_letters_of [W "BRAIN"; W "DRAIN"; W "TRAIN"] 0 = Ok (W "BDT")
  /\ smart_scores (W "BDT") rain_dictionary None
     = Ok [1; 1; 1; 0; 3; 3]%float
  /\ map (stuck_score_spec (W "BDT")) rain_dictionary
     = [1; 1; 1; 0; 3 * f0_1; 3]%float
  /\ AgentFunction rain_agent grain_percepts
     = (Ok (Some (W "DADDY")),
        set_backup (set_counter rain_agent 1)
          [W "BRAIN"; W "DRAIN"; W "TRAIN"]).
Proof. repeat split; vm_compute; reflexivity. Qed.

Lemma index_Ok_In (z : Z) (l : list Z) (i : nat) :
  Py.index z l = Ok i -> In z l.
Proof.
  revert i; induction l as [|x t IH]; simpl; intros i H; [discriminate|].
  destruct (Z.eqb_spec x z) as [->|N]; [auto|].
  destruct (Py.index z t) as [j|e]; [|discriminate]. right. eapply IH.
  reflexivity.
Qed.

Lemma index_not_In (z : Z) (l : list Z) :
  ~ In z l -> Py.index z l = Raise ValueError.
Proof.
  induction l as [|x t IH]; simpl; intros H; [reflexivity|].
  destruct (Z.eqb_spec x z) as [->|N]; [exfalso; auto|].
  rewrite IH by auto. reflexivity.
Qed.

Lemma smart_guess_Ok_absent (self : WordleAgent) (gc : Z)
    (idx letter_states : list Z) (w : word) :
  smart_guess self (gc, idx, letter_states) = Ok w -> In 0 letter_states.
Proof.
  unfold smart_guess.
  destruct (Py.index 0 letter_states) as [i|e] eqn:E; [|discriminate].
  intros _. eapply index_Ok_In. eassumption.
Qed.

Lemma smart_guess_no_absent (self : WordleAgent) (gc : Z)
    (idx letter_states : list Z) :
  ~ In 0 letter_states ->
  smart_guess self (gc, idx, letter_states) = Raise ValueError.
Proof.
  intros H. unfold smart_guess. rewrite index_not_In by assumption.
  reflexivity.
Qed.

Lemma stuck_backup (self : WordleAgent) (p : percepts) :
  stuck self p = true -> (2 < length (dictionary_backup self))%nat.
Proof.
  destruct p as [[gc idx] st]. unfold stuck. intros H.
  repeat (apply andb_true_iff in H; destruct H as [H ?]).
  apply Nat.ltb_lt. assumption.
Qed.

Lemma next_guess_stuck (self : WordleAgent) (p : percepts) :
  stuck self p = true ->
  next_guess self p = (guess <- smart_guess self p ;; Ok (Some guess)).
Proof.
  intros H. pose proof (stuck_backup _ _ H) as L. unfold next_guess.
  destruct (dictionary_backup self); [simpl in L; lia|].
  rewrite H. reflexivity.
Qed.

(** C10: on a turn that reaches the stuck-position heuristic (the opener
    step, the reducer and the rejection step have returned and the stuck
    condition holds), [AgentFunction] answers what [smart_guess] answers;
    [smart_guess] returns a word only if some state is absent, and when no
    state is absent, as when the one state that is not correct is
    present-misplaced, the turn ends in [ValueError]. *)
Theorem AgentFunction_stuck_needs_absent (self s1 s2 s3 : WordleAgent)
    (gc : Z) (idx letter_states : list Z) :
  gc <> 0 ->
  get_first_guess (set_counter self (last_guess_counter self + 1))
  = (Ok tt, s1) ->
  reduce_guesses s1 (gc, idx, letter_states) = (Ok tt, s2) ->
  drop_rejected s2 gc = (Ok tt, s3) ->
  stuck s3 (gc, idx, letter_states) = true ->
  AgentFunction self (gc, idx, letter_states)
  = (guess <- smart_guess s3 (gc, idx, letter_states) ;; Ok (Some guess), s3)
  /\ (forall w, smart_guess s3 (gc, idx, letter_states) = Ok w ->
                In 0 letter_states)
  /\ (~ In 0 letter_states ->
      smart_guess s3 (gc, idx, letter_states) = Raise ValueError
      /\ AgentFunction self (gc, idx, letter_states)
         = (Raise ValueError, s3)).
Proof.
  intros Hgc H1 H2 H3 Hst.
  assert (HA : AgentFunction self (gc, idx, letter_states)
               = (guess <- smart_guess s3 (gc, idx, letter_states) ;;
                  Ok (Some guess), s3)).
  { unfold AgentFunction. rewrite H1.
    destruct (Z.eqb_spec gc 0) as [E|_]; [contradiction|].
    rewrite H2, H3, (next_guess_stuck _ _ Hst). reflexivity. }
  split; [exact HA|]. split.
  - intros w. apply smart_guess_Ok_absent.
  - intros Hno. split; [apply smart_guess_no_absent; assumption|].
    rewrite HA, smart_guess_no_absent by assumption. reflexivity.
Qed.

Lemma AgentFunction_stuck_needs_absent_witness :
  ~ In 0 [-1; 1; 1; 1; 1]
  /\ AgentFunction eeks_agent seeks_percepts
     = (Raise ValueError,
        set_backup (set_counter eeks_agent 1)
          [W "LEEKS"; W "PEEKS"; W "WEEKS"]).
Proof.
  assert (N : ~ In 0 [-1; 1; 1; 1; 1])
    by (simpl; intros H; repeat (destruct H as [H|H]; [discriminate|]);
        exact H).
  split; [exact N|].
  apply (AgentFunction_stuck_needs_absent eeks_agent
           (set_counter eeks_agent 1)
           (set_backup (set_counter eeks_agent 1)
              [W "LEEKS"; W "PEEKS"; W "WEEKS"])
           (set_backup (set_counter eeks_agent 1)
              [W "LEEKS"; W "PEEKS"; W "WEEKS"])
           1 [18; 4; 4; 10; 18] [-1; 1; 1; 1; 1]).
  - discriminate.
  - reflexivity.
  - reflexivity.
  - reflexivity.
  - reflexivity.
  - exact N.
Defined.

(** ** The order of the scores *)

Section FloatOrder.

Local Ltac sf_cases :=
  repeat match goal with
    | |- context [Z.compare ?a ?b] =>
        destruct (Z.compare_spec a b); subst; simpl
    | |- context [Pos.compare_cont Eq ?a ?b] =>
        change (Pos.compare_cont Eq a b) with (Pos.compare a b);
        destruct (Pos.compare_spec a b); subst; simpl
    end;
  try reflexivity; try discriminate; try lia.

Lemma sf_le_refl (a : spec_float) : sf_le a a = true.
Proof.
  unfold sf_le, sf_nan, SFleb, SFcompare.
  destruct a as [[]|[]| |[] m e]; simpl; sf_cases.
Qed.

Lemma sf_le_total (a b : spec_float) :
  sf_le a b = false -> sf_le b a = true.
Proof.
  unfold sf_le, sf_nan, SFleb, SFcompare.
  destruct a as [[]|[]| |[] ma ea], b as [[]|[]| |[] mb eb]; simpl;
    try reflexivity; try discriminate; sf_cases.
Qed.

Lemma sf_le_trans (a b c : spec_float) :
  sf_le a b = true -> sf_le b c = true -> sf_le a c = true.
Proof.
  unfold sf_le, sf_nan, SFleb, SFcompare.
  destruct a as [[]|[]| |[] ma ea], b as [[]|[]| |[] mb eb],
    c as [[]|[]| |[] mc ec]; simpl;
    try reflexivity; try discriminate; sf_cases.
Qed.

Lemma np_le_sf (x y : float) :
  np_le x y = sf_le (Prim2SF x) (Prim2SF y).
Proof.
  unfold np_le, sf_le, PrimFloat.is_nan. rewrite eqb_spec, leb_spec.
  f_equal. unfold sf_nan, SFeqb, SFcompare.
  destruct (Prim2SF y) as [[]|[]| |[] m e]; simpl; try reflexivity;
    rewrite Z.compare_refl;
    change (Pos.compare_cont Eq m m) with (Pos.compare m m);
    rewrite Pos.compare_refl; reflexivity.
Qed.

Lemma np_le_refl (x : float) : np_le x x = true.
Proof. rewrite np_le_sf. apply sf_le_refl. Qed.

Lemma np_le_total (x y : float) : np_le x y = false -> np_le y x = true.
Proof. rewrite !np_le_sf. apply sf_le_total. Qed.

Lemma np_le_trans (x y z : float) :
  np_le x y = true -> np_le y z = true -> np_le x z = true.
Proof. rewrite !np_le_sf. apply sf_le_trans. Qed.

End FloatOrder.

(** ** argmax *)

Lemma argmax_loop_first_max (rest pre : list float) (mp : float) (mi : nat) :
  nth_error pre mi = Some mp ->
  (forall j sj, nth_error pre j = Some sj -> np_le sj mp = true) ->
  (forall j sj, (j < mi)%nat -> nth_error pre j = Some sj ->
                np_le mp sj = false) ->
  first_max (pre ++ rest) (argmax_loop mp mi (length pre) rest).
Proof.
  revert pre mp mi; induction rest as [|x t IH]; intros pre mp mi Hmi Hle Hfirst.
  - simpl. rewrite app_nil_r. exists mp. auto.
  - assert (Hlt : (mi < length pre)%nat) by (apply nth_error_Some; congruence).
    simpl. destruct (PrimFloat.is_nan mp) eqn:Hnan.
    + exists mp. split; [rewrite nth_error_app1 by assumption; assumption|].
      split.
      * intros j sj _. unfold np_le. rewrite Hnan. reflexivity.
      * intros j sj Hj. rewrite nth_error_app1 by lia. apply Hfirst, Hj.
    + assert (Hx : PrimFloat.leb x mp = np_le x mp)
        by (unfold np_le; rewrite Hnan; reflexivity).
      rewrite Hx.
      replace (pre ++ x :: t) with ((pre ++ [x]) ++ t)
        by (rewrite <- app_assoc; reflexivity).
      replace (S (length pre)) with (length (pre ++ [x]))
        by (rewrite length_app; simpl; lia).
      destruct (np_le x mp) eqn:Hxm.
      * apply IH.
        -- rewrite nth_error_app1 by assumption. assumption.
        -- intros j sj Hj.
           destruct (Nat.lt_ge_cases j (length pre)) as [L|G].
           ++ rewrite nth_error_app1 in Hj by assumption. eapply Hle, Hj.
           ++ rewrite nth_error_app2 in Hj by assumption.
              destruct (j - length pre)%nat as [|[|k]]; simpl in Hj;
                try discriminate. injection Hj as <-. assumption.
        -- intros j sj Hj. rewrite nth_error_app1 by lia. apply Hfirst, Hj.
      * apply np_le_total in Hxm as Hmx. apply IH.
        -- rewrite nth_error_app2, Nat.sub_diag by lia. reflexivity.
        -- intros j sj Hj.
           destruct (Nat.lt_ge_cases j (length pre)) as [L|G].
           ++ rewrite nth_error_app1 in Hj by assumption.
              eapply np_le_trans; [eapply Hle, Hj | assumption].
           ++ rewrite nth_error_app2 in Hj by assumption.
              destruct (j - length pre)%nat as [|[|k]]; simpl in Hj;
                try discriminate. injection Hj as <-. apply np_le_refl.
        -- intros j sj Hj Hnth. rewrite nth_error_app1 in Hnth by assumption.
           destruct (np_le x sj) eqn:E; [|reflexivity].
           rewrite (np_le_trans x sj mp E (Hle _ _ Hnth)) in Hxm.
           discriminate.
Qed.

Lemma argmax_first_max (scores : list float) (m : nat) :
  argmax scores = Ok m -> first_max scores m.
Proof.
  destruct scores as [|x t]; simpl; [discriminate|].
  intros H. injection H as <-.
  apply (argmax_loop_first_max t [x] x O).
  - reflexivity.
  - intros [|[|j]] sj Hj; simpl in Hj; try discriminate.
    injection Hj as <-. apply np_le_refl.
  - intros j sj Hj. lia.
Qed.

Lemma argmax_lt (scores : list float) (m : nat) :
  argmax scores = Ok m -> (m < length scores)%nat.
Proof.
  intros H. apply argmax_first_max in H. destruct H as (sm & Hm & _).
  apply nth_error_Some. congruence.
Qed.

Lemma argmax_Ok (scores : list float) :
  scores <> [] -> exists m, argmax scores = Ok m.
Proof. destruct scores; [congruence | simpl; eauto]. Qed.

Lemma argmax_Raise (scores : list float) (e : exn) :
  argmax scores = Raise e -> scores = [] /\ e = ValueError.
Proof. destruct scores; simpl; [intros H; injection H; auto | discriminate]. Qed.

(** ** calculate_scores *)

Lemma scores_of_nth (self : WordleAgent) (ws : list word) (ss : list float) :
  scores_of self ws = Ok ss ->
  length ss = length ws
  /\ forall j w, nth_error ws j = Some w ->
       exists s, score self w = Ok s /\ nth_error ss j = Some s.
Proof.
  revert ss; induction ws as [|w t IH]; simpl; intros ss H.
  - injection H as <-. split; [reflexivity|]. intros [|j] w Hj; discriminate.
  - destruct (score self w) as [s|e] eqn:Es; [|discriminate]. simpl in H.
    destruct (scores_of self t) as [r|e]; [|discriminate]. simpl in H.
    injection H as <-. destruct (IH r eq_refl) as [L N]. split.
    + simpl. congruence.
    + intros [|j] w' Hj; simpl in *.
      * injection Hj as <-. eauto.
      * apply N. assumption.
Qed.

Lemma scores_of_Ok (self : WordleAgent) (ws : list word) :
  Forall (fun w => exists s, score self w = Ok s) ws ->
  exists ss, scores_of self ws = Ok ss.
Proof.
  induction 1 as [|w t [s Hs] _ [r Hr]]; simpl; [eauto|].
  rewrite Hs, Hr. simpl. eauto.
Qed.

Lemma score_Ok (self : WordleAgent) (w : word) :
  dictionary_backup self <> [] ->
  Forall (fun c => (length w <= length c)%nat) (dictionary_backup self) ->
  exists s, score self w = Ok s.
Proof. intros Hne Hlen. rewrite (score_eq self w Hne Hlen). eauto. Qed.

Lemma calculate_scores_Ok (self : WordleAgent) :
  uniform (dictionary_backup self) ->
  exists ss, calculate_scores self = Ok ss
             /\ length ss = length (dictionary_backup self).
Proof.
  intros [n Hn]. unfold calculate_scores.
  destruct (scores_of_Ok self (dictionary_backup self)) as [ss Hss].
  - rewrite Forall_forall in *. intros w Hw. apply score_Ok.
    + intros E. rewrite E in Hw. destruct Hw.
    + apply Forall_forall. intros c Hc. rewrite (Hn w Hw), (Hn c Hc). lia.
  - exists ss. split; [assumption|]. apply (scores_of_nth _ _ _ Hss).
Qed.

(** ** The rejection step *)

Lemma remove_at_first (l : list word) (m : nat) (w : word) :
  nth_error l m = Some w ->
  (forall j x, (j < m)%nat -> nth_error l j = Some x -> x <> w) ->
  Py.remove w l = Ok (without_nth m l).
Proof.
  revert m; induction l as [|x t IH]; intros [|m] Hm Hfirst; simpl in *;
    try discriminate.
  - injection Hm as ->. rewrite str_eqb_refl. reflexivity.
  - destruct (Py.str_eqb x w) eqn:E.
    + apply str_eqb_eq in E. exfalso.
      apply (Hfirst O x); [lia | reflexivity | assumption].
    + unfold without_nth in IH. rewrite (IH m Hm).
      * reflexivity.
      * intros j y Hj Hy. apply (Hfirst (S j) y); [lia | assumption].
Qed.

Lemma without_nth_length {A : Type} (l : list A) (m : nat) :
  (m < length l)%nat -> S (length (without_nth m l)) = length l.
Proof.
  intros H. unfold without_nth.
  rewrite length_app, length_firstn, length_skipn. lia.
Qed.

Lemma get_first_guess_frame (self self' : WordleAgent) (r : result unit) :
  get_first_guess self = (r, self') ->
  dictionary self' = dictionary self
  /\ dictionary_backup self' = dictionary_backup self
  /\ last_guess_counter self' = last_guess_counter self
  /\ has_run self' = true
  /\ (has_run self = true -> self' = self /\ r = Ok tt).
Proof.
  unfold get_first_guess. destruct (has_run self) eqn:E.
  - intros H. injection H as <- <-. repeat split; auto.
  - destruct (scores <- calculate_scores (set_has_run self true) ;;
              argmax scores) as [i|e];
      intros H; injection H as <- <-; simpl;
      repeat split; try reflexivity; discriminate.
Qed.

Lemma drop_rejected_agree (self : WordleAgent) (gc : Z) :
  gc = last_guess_counter self -> drop_rejected self gc = (Ok tt, self).
Proof. intros ->. unfold drop_rejected. rewrite Z.eqb_refl. reflexivity. Qed.

(** The rejected word is the first candidate of maximum score, and it is
    the one that [remove] takes out. *)
Lemma drop_rejected_disagree (self : WordleAgent) (gc : Z) :
  gc <> last_guess_counter self ->
  dictionary_backup self <> [] ->
  uniform (dictionary_backup self) ->
  exists scores m w,
    calculate_scores self = Ok scores
    /\ first_max scores m
    /\ nth_error (dictionary_backup self) m = Some w
    /\ drop_rejected self gc
       = (Ok tt, set_backup self (without_nth m (dictionary_backup self))).
Proof.
  intros Hgc Hne Hun.
  destruct (calculate_scores_Ok self Hun) as (ss & Hss & Hlen).
  destruct (argmax_Ok ss) as [m Hm].
  { intros ->. destruct (dictionary_backup self); [congruence|discriminate]. }
  pose proof (argmax_first_max _ _ Hm) as Hfm.
  pose proof (argmax_lt _ _ Hm) as Hlt.
  destruct (nth_error (dictionary_backup self) m) as [w|] eqn:Hw;
    [|apply nth_error_None in Hw; lia].
  exists ss, m, w. repeat split; try assumption.
  unfold drop_rejected. destruct (Z.eqb_spec gc (last_guess_counter self));
    [contradiction|].
  rewrite Hss. simpl. rewrite Hm. simpl. unfold Py.getitem. rewrite Hw. simpl.
  rewrite (remove_at_first _ m w Hw); [reflexivity|].
  intros j x Hj Hx ->.
  destruct Hfm as (sm & Hsm & _ & Hfirst).
  unfold calculate_scores in Hss. apply scores_of_nth in Hss.
  destruct Hss as [_ Hnth].
  destruct (Hnth _ _ Hw) as (s1 & Hs1 & Hn1).
  destruct (Hnth _ _ Hx) as (s2 & Hs2 & Hn2).
  assert (s2 = sm) by congruence. subst s2.
  assert (s1 = sm) by congruence. subst s1.
  pose proof (np_le_refl sm) as R. rewrite (Hfirst j sm Hj Hn2) in R.
  discriminate.
Qed.

(** C9, with the reduced set not empty: on a turn other than turn 0 that
    gets past the opener step and the reducer, [AgentFunction] selects its
    guess from the reduced candidate set as it is when the external turn
    index equals the internal counter (already incremented for this turn);
    when they differ and the reduced set is not empty, it first removes
    exactly one candidate, the first one of maximum score over that set,
    and selects from what is left. *)
Theorem AgentFunction_drops_rejected (self s1 s2 : WordleAgent) (gc : Z)
    (idx letter_states : list Z) :
  gc <> 0 ->
  get_first_guess (set_counter self (last_guess_counter self + 1))
  = (Ok tt, s1) ->
  reduce_guesses s1 (gc, idx, letter_states) = (Ok tt, s2) ->
  uniform (dictionary_backup s2) ->
  (gc = last_guess_counter self + 1 ->
   AgentFunction self (gc, idx, letter_states)
   = (next_guess s2 (gc, idx, letter_states), s2))
  /\ (gc <> last_guess_counter self + 1 ->
      dictionary_backup s2 <> [] ->
      exists scores m w s3,
        calculate_scores s2 = Ok scores
        /\ first_max scores m
        /\ nth_error (dictionary_backup s2) m = Some w
        /\ s3 = set_backup s2 (without_nth m (dictionary_backup s2))
        /\ S (length (dictionary_backup s3)) = length (dictionary_backup s2)
        /\ AgentFunction self (gc, idx, letter_states)
           = (next_guess s3 (gc, idx, letter_states), s3)).
Proof.
  intros Hgc H1 H2 Hun.
  assert (Hc : last_guess_counter s2 = last_guess_counter self + 1).
  { apply get_first_guess_frame in H1. destruct H1 as (_ & _ & Hc1 & _).
    apply reduce_guesses_filter in H2. destruct H2 as (g & _ & ->).
    simpl. rewrite Hc1. reflexivity. }
  assert (HA : AgentFunction self (gc, idx, letter_states)
               = match drop_rejected s2 gc with
                 | (Raise e, s) => (Raise e, s)
                 | (Ok _, s) => (next_guess s (gc, idx, letter_states), s)
                 end).
  { unfold AgentFunction. rewrite H1.
    destruct (Z.eqb_spec gc 0); [contradiction|]. rewrite H2. reflexivity. }
  split.
  - intros E. rewrite HA, drop_rejected_agree by congruence. reflexivity.
  - intros N Hne.
    destruct (drop_rejected_disagree s2 gc) as (ss & m & w & Hss & Hfm & Hw & Hd);
      [congruence | assumption | assumption |].
    exists ss, m, w, (set_backup s2 (without_nth m (dictionary_backup s2))).
    repeat split; try assumption.
    + simpl. apply without_nth_length. apply nth_error_Some. congruence.
    + rewrite HA, Hd. reflexivity.
Qed.

Lemma AgentFunction_drops_rejected_witness :
  (2 = last_guess_counter eeks_agent + 1 ->
   AgentFunction eeks_agent seeks_rejected_percepts
   = (next_guess
        (set_backup (set_counter eeks_agent 1)
           [W "LEEKS"; W "PEEKS"; W "WEEKS"]) seeks_rejected_percepts,
      set_backup (set_counter eeks_agent 1)
        [W "LEEKS"; W "PEEKS"; W "WEEKS"]))
  /\ (2 <> last_guess_counter eeks_agent + 1 ->
      dictionary_backup
        (set_backup (set_counter eeks_agent 1)
           [W "LEEKS"; W "PEEKS"; W "WEEKS"]) <> [] ->
      exists scores m w s3,
        calculate_scores
          (set_backup (set_counter eeks_agent 1)
             [W "LEEKS"; W "PEEKS"; W "WEEKS"]) = Ok scores
        /\ first_max scores m
        /\ nth_error [W "LEEKS"; W "PEEKS"; W "WEEKS"] m = Some w
        /\ s3 = set_backup
                  (set_backup (set_counter eeks_agent 1)
                     [W "LEEKS"; W "PEEKS"; W "WEEKS"])
                  (without_nth m [W "LEEKS"; W "PEEKS"; W "WEEKS"])
        /\ S (length (dictionary_backup s3)) = 3%nat
        /\ AgentFunction eeks_agent seeks_rejected_percepts
           = (next_guess s3 seeks_rejected_percepts, s3)).
Proof.
  apply (AgentFunction_drops_rejected eeks_agent (set_counter eeks_agent 1)
           (set_backup (set_counter eeks_agent 1)
              [W "LEEKS"; W "PEEKS"; W "WEEKS"])
           2 [18; 4; 4; 10; 18] [0; 1; 1; 1; 1]).
  - discriminate.
  - reflexivity.
  - reflexivity.
  - exists 5%nat. repeat constructor.
Defined.

(** C9, as the spec words it, fails on an empty reduced set: after its
    opener, with the external turn index one ahead and the guess SLATE
    answered correct, absent, absent, absent, absent, the reducer empties
    the candidate set of the agent over CRANE, SLATE, TRAIN, and the
    rejection step, with no candidate to score, ends the call in
    [ValueError]: no word is removed. *)
Lemma AgentFunction_rejected_empty :
  2 <> last_guess_counter agent3_opened + 1
  /\ reduce_guesses (set_counter agent3_opened 1)
       (2, [18; 11; 0; 19; 4], [1; 0; 0; 0; 0])
     = (Ok tt, set_backup (set_counter agent3_opened 1) [])
  /\ AgentFunction agent3_opened (2, [18; 11; 0; 19; 4], [1; 0; 0; 0; 0])
     = (Raise ValueError, set_backup (set_counter agent3_opened 1) []).
Proof.
  split; [vm_compute; discriminate|].
  split; vm_compute; reflexivity.
Qed.

(** ** The guess returned *)

Lemma set_backup_same (self : WordleAgent) :
  set_backup self (dictionary_backup self) = self.
Proof. destruct self. reflexivity. Qed.

Lemma reduce_guesses_frame (self : WordleAgent) (p : percepts) :
  exists b, snd (reduce_guesses self p) = set_backup self b.
Proof.
  destruct p as [[gc idx] st]. unfold reduce_guesses.
  destruct (letter_indices_to_word idx (letters self)).
  - destruct (reduce_loop a st (dictionary_backup self)
                (dictionary_backup self)) as [r b].
    exists b. reflexivity.
  - exists (dictionary_backup self). simpl. symmetry. apply set_backup_same.
Qed.

Lemma drop_rejected_frame (self : WordleAgent) (gc : Z) :
  exists b, snd (drop_rejected self gc) = set_backup self b.
Proof.
  unfold drop_rejected. destruct (gc =? last_guess_counter self).
  - exists (dictionary_backup self). simpl. symmetry. apply set_backup_same.
  - destruct (bind (calculate_scores self) _) as [b|e].
    + exists b. reflexivity.
    + exists (dictionary_backup self). simpl. symmetry.
      apply set_backup_same.
Qed.

Lemma smart_guess_In (self : WordleAgent) (p : percepts) (w : word) :
  smart_guess self p = Ok w -> In w (dictionary self).
Proof.
  destruct p as [[gc idx] st]. unfold smart_guess.
  destruct (Py.index 0 st); [simpl|discriminate].
  destruct (possible_letters_of (dictionary_backup self) a);
    [simpl|discriminate].
  destruct (smart_scores a0 (dictionary self) None); [simpl|discriminate].
  destruct (argmax a1); [simpl|discriminate].
  apply getitem_In.
Qed.

Lemma next_guess_member (self : WordleAgent) (p : percepts) (w : word) :
  next_guess self p = Ok (Some w) ->
  if stuck self p then In w (dictionary self)
  else In w (dictionary_backup self).
Proof.
  unfold next_guess. destruct (dictionary_backup self) as [|x t] eqn:Eb;
    [discriminate|].
  destruct (stuck self p).
  - destruct (smart_guess self p) eqn:E; [|discriminate]. simpl.
    intros H. injection H as <-. eapply smart_guess_In. eassumption.
  - rewrite <- Eb.
    destruct (calculate_scores self); [simpl|discriminate].
    destruct (argmax a); [simpl|discriminate].
    destruct (Py.getitem (dictionary_backup self) a0) eqn:E;
      [simpl|discriminate].
    intros H. injection H as <-. eapply getitem_In. eassumption.
Qed.

Lemma next_guess_None (self : WordleAgent) (p : percepts) :
  next_guess self p = Ok None -> dictionary_backup self = [].
Proof.
  unfold next_guess. destruct (dictionary_backup self) as [|x t];
    [reflexivity|].
  destruct (stuck self p).
  - destruct (smart_guess self p); discriminate.
  - destruct (calculate_scores self); [simpl|discriminate].
    destruct (argmax a); [simpl|discriminate].
    destruct (Py.getitem (x :: t) a0); discriminate.
Qed.

(** What a call of [AgentFunction] comes to on a turn other than turn 0. *)
Lemma AgentFunction_later (self self' : WordleAgent) (p : percepts)
    (r : option word) :
  fst (fst p) <> 0 ->
  AgentFunction self p = (Ok r, self') ->
  next_guess self' p = Ok r.
Proof.
  destruct p as [[gc idx] st]. cbn [fst]. intros Hgc.
  unfold AgentFunction.
  destruct (get_first_guess _) as [[[]|e] s1]; [|intros H; discriminate].
  destruct (Z.eqb_spec gc 0); [contradiction|].
  destruct (reduce_guesses s1 (gc, idx, st)) as [[[]|e] s2];
    [|intros H; discriminate].
  destruct (drop_rejected s2 gc) as [[[]|e] s3]; [|intros H; discriminate].
  intros H. injection H as H <-. assumption.
Qed.

Lemma AgentFunction_opener (self self' : WordleAgent) (idx st : list Z)
    (r : option word) :
  AgentFunction self (0, idx, st) = (Ok r, self') ->
  exists w, r = Some w
    /\ nth_error (dictionary self') (first_guess_index self') = Some w
    /\ dictionary_backup self' = dictionary self'.
Proof.
  unfold AgentFunction.
  destruct (get_first_guess _) as [[[]|e] s1]; [|intros H; discriminate].
  simpl.
  destruct (Py.getitem (dictionary s1) (first_guess_index s1)) as [w|e] eqn:E;
    simpl; intros H; [|discriminate].
  injection H as <- <-. exists w. simpl. apply getitem_Ok in E. auto.
Qed.

(** C3, as far as it holds: a word that [AgentFunction] returns is a word
    of the full dictionary when the turn went to the stuck-position
    heuristic, and a candidate of the set the call leaves otherwise (turn 0
    and the scoring path); and a call that returns normally returns no
    word exactly when it is a turn other than turn 0 that leaves the
    candidate set empty. *)
Theorem AgentFunction_guess_member (self self' : WordleAgent) (p : percepts) :
  (forall w, AgentFunction self p = (Ok (Some w), self') ->
     if negb (fst (fst p) =? 0) && stuck self' p
     then In w (dictionary self')
     else In w (dictionary_backup self'))
  /\ (forall r, AgentFunction self p = (Ok r, self') ->
       (r = None <-> fst (fst p) <> 0 /\ dictionary_backup self' = [])).
Proof.
  split.
  - intros w H. destruct (Z.eqb_spec (fst (fst p)) 0) as [E|N]; simpl.
    + destruct p as [[gc idx] st]. simpl in E. subst gc.
      apply AgentFunction_opener in H. destruct H as (w' & Hw & Hn & Hb).
      injection Hw as <-. rewrite Hb. eapply nth_error_In. eassumption.
    + apply AgentFunction_later in H; [|assumption].
      apply next_guess_member. assumption.
  - intros r H. destruct (Z.eqb_spec (fst (fst p)) 0) as [E|N].
    + destruct p as [[gc idx] st]. simpl in E. subst gc.
      apply AgentFunction_opener in H. destruct H as (w' & -> & _).
      simpl. split; [discriminate|]. intros [F _]. congruence.
    + apply AgentFunction_later in H; [|assumption]. split.
      * intros ->. split; [assumption|].
        eapply next_guess_None. eassumption.
      * intros [_ Hb]. unfold next_guess in H. rewrite Hb in H.
        injection H as <-. reflexivity.
Qed.

(** C3, as the spec words it, fails: after its opener, on the guess SLATE
    answered correct, absent, absent, absent, absent, the agent over CRANE,
    SLATE, TRAIN returns [None], no word at all. *)
Lemma AgentFunction_returns_no_word :
  fst (AgentFunction agent3_opened slate_percepts) = Ok None
  /\ forall w, fst (AgentFunction agent3_opened slate_percepts) <> Ok (Some w).
Proof.
  assert (E : fst (AgentFunction agent3_opened slate_percepts) = Ok None)
    by (vm_compute; reflexivity).
  split; [exact E|]. intros w. rewrite E. discriminate.
Qed.

(** ** The opener cache *)

Lemma probability_backup (a b : WordleAgent) (c : ascii) (pos : nat) :
  dictionary_backup a = dictionary_backup b ->
  probability a c pos = probability b c pos.
Proof. intros E. unfold probability. rewrite E. reflexivity. Qed.

Lemma score_loop_backup (a b : WordleAgent) (w : word) (ps : list nat)
    (s : float) (d : bool) :
  dictionary_backup a = dictionary_backup b ->
  score_loop a w ps s d = score_loop b w ps s d.
Proof.
  intros E. revert s d; induction ps as [|i rest IH]; intros s d; simpl;
    [reflexivity|].
  destruct (Py.getitem w i); simpl; [|reflexivity].
  unfold entropy. rewrite (probability_backup a b _ _ E).
  destruct (probability b a0 i); simpl; [apply IH | reflexivity].
Qed.

(** The scores only read the candidate set. *)
Lemma scores_of_backup (a b : WordleAgent) (ws : list word) :
  dictionary_backup a = dictionary_backup b ->
  scores_of a ws = scores_of b ws.
Proof.
  intros E. induction ws as [|w t IH]; simpl; [reflexivity|].
  unfold score. rewrite (score_loop_backup a b _ _ _ _ E), IH. reflexivity.
Qed.

Lemma AgentFunction_cache (self : WordleAgent) (p : percepts) :
  has_run (snd (AgentFunction self p)) = true
  /\ dictionary (snd (AgentFunction self p)) = dictionary self
  /\ (has_run self = true ->
      first_guess_index (snd (AgentFunction self p)) = first_guess_index self).
Proof.
  destruct p as [[gc idx] st]. unfold AgentFunction.
  destruct (get_first_guess _) as [r1 s1] eqn:E1.
  apply get_first_guess_frame in E1.
  destruct E1 as (Hd & _ & _ & Hr & Hsame). simpl in Hd, Hsame.
  assert (Hi : has_run self = true ->
               first_guess_index s1 = first_guess_index self).
  { intros H. destruct (Hsame H) as [-> _]. reflexivity. }
  destruct r1 as [[]|e]; [|simpl; auto].
  destruct (gc =? 0); [simpl; auto|].
  destruct (reduce_guesses_frame s1 (gc, idx, st)) as [b2 F2].
  destruct (reduce_guesses s1 (gc, idx, st)) as [r2 s2]. simpl in F2.
  subst s2. destruct r2 as [[]|e]; [|simpl; auto].
  destruct (drop_rejected_frame (set_backup s1 b2) gc) as [b3 F3].
  destruct (drop_rejected (set_backup s1 b2) gc) as [r3 s3]. simpl in F3.
  subst s3. destruct r3 as [[]|e]; simpl; auto.
Qed.

Lemma run_cache (ps : list percepts) (self : WordleAgent) :
  has_run self = true ->
  has_run (run self ps) = true
  /\ first_guess_index (run self ps) = first_guess_index self
  /\ dictionary (run self ps) = dictionary self.
Proof.
  revert self; induction ps as [|p rest IH]; intros self H; simpl; [auto|].
  destruct (AgentFunction_cache self p) as (Hr & Hd & Hi).
  destruct (IH _ Hr) as (Hr' & Hi' & Hd').
  rewrite Hi', Hd', Hd, (Hi H). auto.
Qed.



(** ** Two further facts *)

(** The reducer is one filter pass: when the guess decodes and no
    candidate's scan raises, [reduce_guesses] returns and leaves the
    candidates that [keeps] keeps, in their order. *)
Theorem reduce_guesses_filter_pass (self : WordleAgent) (gc : Z)
    (idx letter_states : list Z) (g : word) :
  letter_indices_to_word idx (letters self) = Ok g ->
  Forall (fun w => exists b, removes g letter_states w = Ok b)
    (dictionary_backup self) ->
  reduce_guesses self (gc, idx, letter_states)
  = (Ok tt,
     set_backup self (filter (keeps g letter_states) (dictionary_backup self))).
Proof.
  intros Hdec Hall. unfold reduce_guesses. rewrite Hdec.
  pose proof (reduce_loop_filter g letter_states (dictionary_backup self) []
                (Forall_nil _) Hall) as F.
  simpl in F. rewrite F. reflexivity.
Qed.

Lemma reduce_guesses_filter_pass_witness :
  reduce_guesses agent3 slate_percepts
  = (Ok tt,
     set_backup agent3
       (filter (keeps (W "SLATE") [1; 0; 0; 0; 0]) (dictionary_backup agent3))).
Proof.
  apply (reduce_guesses_filter_pass agent3 1 [18; 11; 0; 19; 4]
           [1; 0; 0; 0; 0] (W "SLATE")).
  - reflexivity.
  - repeat constructor; eexists; vm_compute; reflexivity.
Defined.

(** The scores of [smart_guess] over a dictionary of non-empty words: each
    word gets the number of its letters that are possible letters, times
    0.1 exactly when its last letter is a possible letter that the word
    has more than once. *)
Theorem smart_scores_last_letter (possible_letters : list ascii)
    (dict : list word) (double_letter : option bool) :
  Forall (fun w => w <> []) dict ->
  smart_scores possible_letters dict double_letter
  = Ok (map (stuck_score_code possible_letters) dict).
Proof.
  intros Hne. revert double_letter.
  induction Hne as [|w t Hw _ IH]; intros dl; simpl; [reflexivity|].
  rewrite smart_chars_spec. unfold stuck_score_code. simpl.
  destruct (rev w) as [|c r] eqn:R.
  - exfalso. apply Hw. apply (f_equal (@rev ascii)) in R.
    rewrite rev_involutive in R. assumption.
  - rewrite IH. reflexivity.
Qed.

Lemma smart_scores_last_letter_witness :
  smart_scores (W "BDT") rain_dictionary None
  = Ok (map (stuck_score_code (W "BDT")) rain_dictionary).
Proof.
  apply (smart_scores_last_letter (W "BDT") rain_dictionary None).
  repeat constructor; discriminate.
Defined.

(** * Further properties of the reducer *)

Lemma reduce_at_consistent (g : word) (letter_states : list Z) (w : word)
    (i : nat) (b : bool) :
  (i < length w)%nat ->
  reduce_at g letter_states w i = Ok b ->
  (b = false <-> consistent_at g letter_states w i).
Proof.
  intros Hi. unfold reduce_at, consistent_at, Py.getitem.
  destruct (nth_error w i) as [c|] eqn:Hw; [|apply nth_error_None in Hw; lia].
  destruct (nth_error letter_states i) as [s|]; [simpl|discriminate].
  destruct (Z.eqb_spec s 0) as [->|N0].
  - destruct (nth_error g i) as [L|]; [simpl|discriminate].
    destruct (Py.contains L w) eqn:Ec.
    + apply contains_In in Ec.
      destruct (Nat.eqb_spec (Py.count L g) 1) as [E1|N1].
      * intros H. injection H as <-. split; [discriminate|].
        intros (_ & _ & H). destruct (H eq_refl Ec). contradiction.
      * intros H. injection H as <-.
        destruct (Ascii.eqb_spec L c) as [->|Nc].
        -- split; [discriminate|]. intros (_ & _ & H).
           destruct (H eq_refl Ec). congruence.
        -- split; [|reflexivity]. intros _.
           split; [lia|]. split; [lia|]. intros _ _.
           split; [assumption | congruence].
    + intros H. injection H as <-. split; [|reflexivity]. intros _.
      split; [lia|]. split; [lia|]. intros _ Hin.
      apply contains_In in Hin. congruence.
  - destruct (Z.eqb_spec s 1) as [->|N1].
    + destruct (nth_error g i) as [L|]; [simpl|discriminate].
      intros H. injection H as <-.
      destruct (Ascii.eqb_spec L c) as [->|Nc]; simpl.
      * split; [|reflexivity]. intros _.
        split; [reflexivity|]. split; lia.
      * split; [discriminate|]. intros (H & _).
        specialize (H eq_refl). congruence.
    + destruct (Z.eqb_spec s (-1)) as [->|Nm].
      * destruct (nth_error g i) as [L|]; [simpl|discriminate].
        destruct (Py.contains L w) eqn:Ec; simpl.
        -- apply contains_In in Ec. intros H. injection H as <-.
           destruct (Ascii.eqb_spec L c) as [->|Nc].
           ++ split; [discriminate|]. intros (_ & H & _).
              destruct (H eq_refl). congruence.
           ++ split; [|reflexivity]. intros _.
              split; [lia|]. split; [|lia]. intros _.
              split; [assumption | congruence].
        -- intros H. injection H as <-. split; [discriminate|].
           intros (_ & H & _). destruct (H eq_refl) as [Hin _].
           apply contains_In in Hin. congruence.
      * intros H. injection H as <-. split; [|reflexivity]. intros _.
        destruct (nth_error g i); [|exact I].
        split; [lia|]. split; lia.
Qed.

Lemma keeps_consistent (g : word) (letter_states : list Z) (w : word)
    (b : bool) :
  removes g letter_states w = Ok b ->
  (keeps g letter_states w = true
   <-> forall i, (i < length w)%nat -> consistent_at g letter_states w i).
Proof.
  intros Hr. unfold keeps. rewrite Hr. destruct b.
  - split; [discriminate|]. intros Hall.
    apply reduce_word_true_inv in Hr. destruct Hr as (i & Hi & Hat).
    apply in_seq in Hi.
    apply (reduce_at_consistent g letter_states w i true) in Hat; [|lia].
    assert (true = false) by (apply Hat, Hall; lia). discriminate.
  - split; [|reflexivity]. intros _ i Hi.
    unfold removes in Hr. rewrite reduce_word_false_iff in Hr.
    assert (Hat : reduce_at g letter_states w i = Ok false)
      by (apply Hr, in_seq; lia).
    apply (reduce_at_consistent g letter_states w i false Hi Hat).
    reflexivity.
Qed.

(** The candidates that a normal return of [reduce_guesses] leaves are
    those that every one of their positions finds consistent with the
    feedback. *)
Theorem reduce_guesses_survivors (self self' : WordleAgent) (gc : Z)
    (idx letter_states : list Z) (g : word) :
  letter_indices_to_word idx (letters self) = Ok g ->
  reduce_guesses self (gc, idx, letter_states) = (Ok tt, self') ->
  forall w,
    In w (dictionary_backup self')
    <-> In w (dictionary_backup self)
        /\ forall i, (i < length w)%nat -> consistent_at g letter_states w i.
Proof.
  intros Hdec Hred w.
  pose proof Hred as Hok. unfold reduce_guesses in Hok. rewrite Hdec in Hok.
  destruct (reduce_loop g letter_states (dictionary_backup self)
              (dictionary_backup self)) as [r b] eqn:E.
  injection Hok as -> _. apply reduce_loop_Ok_inv in E.
  rewrite Forall_forall in E.
  destruct (reduce_guesses_filter _ _ _ _ _ Hred) as (g' & Hg' & ->).
  rewrite Hdec in Hg'. injection Hg' as <-. simpl. rewrite filter_In.
  split.
  - intros [Hin Hk]. split; [assumption|]. destruct (E w Hin) as [b' Hb'].
    apply (keeps_consistent g letter_states w b' Hb'). assumption.
  - intros [Hin Hall]. split; [assumption|]. destruct (E w Hin) as [b' Hb'].
    apply (keeps_consistent g letter_states w b' Hb'). assumption.
Qed.

Lemma reduce_guesses_survivors_witness :
  In (W "TRAIN") (dictionary_backup (set_backup agent3 [W "TRAIN"]))
  <-> In (W "TRAIN") (dictionary_backup agent3)
      /\ forall i, (i < length (W "TRAIN"))%nat ->
           consistent_at (W "CRANE") [0; 1; 1; -1; 0] (W "TRAIN") i.
Proof.
  apply (reduce_guesses_survivors agent3 (set_backup agent3 [W "TRAIN"]) 1
           [2; 17; 0; 13; 4] [0; 1; 1; -1; 0] (W "CRANE")).
  - reflexivity.
  - reflexivity.
Defined.

Lemma set_backup_twice (self : WordleAgent) (b b' : list word) :
  set_backup (set_backup self b) b' = set_backup self b'.
Proof. reflexivity. Qed.

Lemma filter_twice {A : Type} (f : A -> bool) (l : list A) :
  filter f (filter f l) = filter f l.
Proof.
  induction l as [|x t IH]; simpl; [reflexivity|].
  destruct (f x) eqn:E; simpl; [rewrite E, IH|rewrite IH]; reflexivity.
Qed.

Lemma filter_swap {A : Type} (f h : A -> bool) (l : list A) :
  filter f (filter h l) = filter h (filter f l).
Proof.
  induction l as [|x t IH]; simpl; [reflexivity|].
  destruct (f x) eqn:Ef, (h x) eqn:Eh; simpl; rewrite ?Ef, ?Eh, IH;
    reflexivity.
Qed.

Lemma Forall_filter {A : Type} (P : A -> Prop) (f : A -> bool) (l : list A) :
  Forall P l -> Forall P (filter f l).
Proof.
  intros H. apply Forall_forall. intros x Hx. apply filter_In in Hx.
  rewrite Forall_forall in H. apply H. tauto.
Qed.

(** Feeding the same percepts to [reduce_guesses] again changes nothing:
    after a normal return, a second pass returns normally and leaves the
    same state. *)
Theorem reduce_guesses_idempotent (self self' : WordleAgent) (p : percepts) :
  reduce_guesses self p = (Ok tt, self') ->
  reduce_guesses self' p = (Ok tt, self').
Proof.
  destruct p as [[gc idx] st]. intros Hred.
  destruct (reduce_guesses_filter _ _ _ _ _ Hred) as (g & Hdec & ->).
  pose proof (reduce_guesses_scans _ _ _ _ _ _ Hdec Hred) as Hall.
  rewrite (reduce_guesses_from_scans _ gc idx st g).
  - simpl. rewrite set_backup_twice, filter_twice. reflexivity.
  - exact Hdec.
  - simpl. apply Forall_filter. assumption.
Qed.

Lemma reduce_guesses_idempotent_witness :
  reduce_guesses (set_backup agent3 [W "TRAIN"]) crane_percepts
  = (Ok tt, set_backup agent3 [W "TRAIN"]).
Proof.
  apply (reduce_guesses_idempotent agent3 (set_backup agent3 [W "TRAIN"])
           crane_percepts).
  reflexivity.
Defined.

(** Two rounds of feedback can be applied in either order: when both
    orders return normally, they leave the same state. *)
Theorem reduce_guesses_commute (self a ab b ba : WordleAgent)
    (p q : percepts) :
  reduce_guesses self p = (Ok tt, a) ->
  reduce_guesses a q = (Ok tt, ab) ->
  reduce_guesses self q = (Ok tt, b) ->
  reduce_guesses b p = (Ok tt, ba) ->
  ab = ba.
Proof.
  destruct p as [[gc1 idx1] st1], q as [[gc2 idx2] st2].
  intros Hp Hpq Hq Hqp.
  destruct (reduce_guesses_filter _ _ _ _ _ Hp) as (g1 & Hd1 & ->).
  destruct (reduce_guesses_filter _ _ _ _ _ Hq) as (g2 & Hd2 & ->).
  destruct (reduce_guesses_filter _ _ _ _ _ Hpq) as (g2' & Hd2' & ->).
  destruct (reduce_guesses_filter _ _ _ _ _ Hqp) as (g1' & Hd1' & ->).
  simpl in Hd2', Hd1'. rewrite Hd2 in Hd2'. rewrite Hd1 in Hd1'.
  injection Hd2' as <-. injection Hd1' as <-. simpl.
  rewrite !set_backup_twice. f_equal. apply filter_swap.
Qed.

Lemma reduce_guesses_commute_witness :
  set_backup agent4 [W "TRAIN"] = set_backup agent4 [W "TRAIN"].
Proof.
  apply (reduce_guesses_commute agent4
           (set_backup agent4 [W "TRAIN"; W "BRAIN"])
           (set_backup agent4 [W "TRAIN"])
           (set_backup agent4 [W "TRAIN"])
           (set_backup agent4 [W "TRAIN"])
           crane_percepts slate_train_percepts); reflexivity.
Defined.

(** ** Exceptions of the reducer *)

Lemma getitem_Raise {A : Type} (l : list A) (i : nat) (e : exn) :
  Py.getitem l i = Raise e -> e = IndexError.
Proof.
  unfold Py.getitem. destruct (nth_error l i); [discriminate|].
  intros H. injection H. auto.
Qed.

Lemma reduce_at_Raise (g : word) (st : list Z) (w : word) (i : nat)
    (e : exn) :
  reduce_at g st w i = Raise e -> e = IndexError.
Proof.
  unfold reduce_at.
  destruct (Py.getitem st i) as [s|e1] eqn:Es; simpl;
    [|intros H; injection H as <-; eapply getitem_Raise; eassumption].
  destruct (Py.getitem g i) as [L|e1] eqn:Eg; simpl.
  - destruct (Py.getitem w i) as [c|e1] eqn:Ew; simpl.
    + destruct (s =? 0); [destruct (Py.contains L w);
        [destruct (Nat.eqb (Py.count L g) 1)|]; discriminate|].
      destruct (s =? 1); [discriminate|].
      destruct (s =? -1); [|discriminate].
      destruct (negb (Py.contains L w)); discriminate.
    + apply getitem_Raise in Ew. subst e1.
      destruct (s =? 0); [destruct (Py.contains L w);
        [destruct (Nat.eqb (Py.count L g) 1)|];
        intros H; try discriminate; injection H; auto|].
      destruct (s =? 1); [intros H; injection H; auto|].
      destruct (s =? -1); [|discriminate].
      destruct (negb (Py.contains L w)); intros H; try discriminate;
        injection H; auto.
  - apply getitem_Raise in Eg. subst e1.
    destruct (s =? 0); [intros H; injection H; auto|].
    destruct (s =? 1); [intros H; injection H; auto|].
    destruct (s =? -1); [intros H; injection H; auto|discriminate].
Qed.

Lemma removes_Raise (g : word) (st : list Z) (w : word) (e : exn) :
  removes g st w = Raise e -> e = IndexError.
Proof.
  unfold removes. generalize (seq 0 (length w)) as ps.
  induction ps as [|i rest IH]; simpl; [discriminate|].
  destruct (reduce_at g st w i) as [[|]|e1] eqn:E; simpl.
  - discriminate.
  - assumption.
  - intros H. injection H as <-. eapply reduce_at_Raise. eassumption.
Qed.

(** The loop up to the first candidate whose scan raises: the candidates
    before it are filtered, the others are left as they are. *)
Lemma reduce_loop_raise (g : word) (st : list Z) (pre : list word)
    (w : word) (post kept : list word) (e : exn) :
  Forall (fun x => removes g st x = Ok false) kept ->
  Forall (fun x => exists b, removes g st x = Ok b) pre ->
  removes g st w = Raise e ->
  reduce_loop g st (pre ++ w :: post) (kept ++ pre ++ w :: post)
  = (Raise e, kept ++ filter (keeps g st) pre ++ w :: post).
Proof.
  revert kept; induction pre as [|x pre IH]; intros kept Hk Hp Hw; simpl.
  - rewrite Hw. reflexivity.
  - inversion Hp as [|? ? [b Hb] Hp']; subst. unfold keeps at 1.
    rewrite Hb. destruct b.
    + rewrite remove_app.
      * apply IH; assumption.
      * intros Hin. rewrite Forall_forall in Hk.
        specialize (Hk _ Hin). congruence.
    + replace (kept ++ x :: pre ++ w :: post)
        with ((kept ++ [x]) ++ pre ++ w :: post)
        by (rewrite <- app_assoc; reflexivity).
      rewrite IH; [rewrite <- app_assoc; reflexivity | | assumption
                  | assumption].
      apply Forall_app. split; [assumption|]. repeat constructor.
      assumption.
Qed.

(** Every list is scanned without trouble, or splits at the first word
    whose scan raises. *)
Lemma first_raise (g : word) (st : list Z) (l : list word) :
  Forall (fun x => exists b, removes g st x = Ok b) l
  \/ exists pre w post e,
       l = pre ++ w :: post
       /\ Forall (fun x => exists b, removes g st x = Ok b) pre
       /\ removes g st w = Raise e.
Proof.
  induction l as [|x t IH]; [left; constructor|].
  destruct (removes g st x) as [b|e] eqn:E.
  - destruct IH as [H|(pre & w & post & e & -> & Hp & Hw)].
    + left. constructor; eauto.
    + right. exists (x :: pre), w, post, e. repeat split; try assumption.
      constructor; eauto.
  - right. exists [], x, t, e. repeat split; [constructor | assumption].
Qed.

(** Once the guess is decoded, [reduce_guesses] raises nothing but
    [IndexError]: the [remove] inside its loop always finds its word,
    duplicates or not.  It raises when the scan of some candidate runs out
    of states or of guessed letters; the candidates before that one are
    then already filtered, and the others are all still there. *)
Theorem reduce_guesses_raises (self self' : WordleAgent) (gc : Z)
    (idx letter_states : list Z) (g : word) (e : exn) :
  letter_indices_to_word idx (letters self) = Ok g ->
  reduce_guesses self (gc, idx, letter_states) = (Raise e, self') ->
  e = IndexError
  /\ exists pre w post,
       dictionary_backup self = pre ++ w :: post
       /\ Forall (fun x => exists b, removes g letter_states x = Ok b) pre
       /\ removes g letter_states w = Raise IndexError
       /\ self' = set_backup self
                    (filter (keeps g letter_states) pre ++ w :: post).
Proof.
  intros Hdec Hred. unfold reduce_guesses in Hred. rewrite Hdec in Hred.
  destruct (first_raise g letter_states (dictionary_backup self))
    as [Hall|(pre & w & post & e1 & Hb & Hp & Hw)].
  - pose proof (reduce_loop_filter g letter_states (dictionary_backup self)
                  [] (Forall_nil _) Hall) as F.
    simpl in F. rewrite F in Hred. discriminate.
  - pose proof (reduce_loop_raise g letter_states pre w post [] e1
                  (Forall_nil _) Hp Hw) as F.
    simpl in F. rewrite Hb in Hred. rewrite F in Hred.
    injection Hred as <- <-.
    pose proof (removes_Raise _ _ _ _ Hw) as ->.
    split; [reflexivity|]. exists pre, w, post.
    repeat split; assumption.
Qed.

Lemma reduce_guesses_raises_witness :
  IndexError = IndexError
  /\ exists pre w post,
       dictionary_backup agent3 = pre ++ w :: post
       /\ Forall (fun x => exists b, removes (W "CRANE") [0] x = Ok b) pre
       /\ removes (W "CRANE") [0] w = Raise IndexError
       /\ set_backup agent3 [W "SLATE"; W "TRAIN"]
          = set_backup agent3
              (filter (keeps (W "CRANE") [0]) pre ++ w :: post).
Proof.
  apply (reduce_guesses_raises agent3
           (set_backup agent3 [W "SLATE"; W "TRAIN"]) 1 [2; 17; 0; 13; 4]
           [0] (W "CRANE") IndexError).
  - reflexivity.
  - reflexivity.
Defined.

(** With a state and a guessed letter for every position of every
    candidate, [reduce_guesses] returns normally, and what it leaves is
    the candidate list filtered by [keeps]. *)
Theorem reduce_guesses_returns (self : WordleAgent) (gc : Z)
    (idx letter_states : list Z) (g : word) :
  letter_indices_to_word idx (letters self) = Ok g ->
  Forall (fun w => (length w <= length letter_states)%nat
                   /\ (length w <= length g)%nat) (dictionary_backup self) ->
  reduce_guesses self (gc, idx, letter_states)
  = (Ok tt,
     set_backup self
       (filter (keeps g letter_states) (dictionary_backup self))).
Proof.
  intros Hdec Hlen. apply reduce_guesses_from_scans; [assumption|].
  eapply Forall_impl; [|exact Hlen]. simpl. intros w [Hs Hg].
  apply reduce_word_total. intros i Hi. apply in_seq in Hi.
  apply reduce_at_Ok; lia.
Qed.

Lemma reduce_guesses_returns_witness :
  reduce_guesses agent4 crane_percepts
  = (Ok tt,
     set_backup agent4
       (filter (keeps (W "CRANE") [0; 1; 1; -1; 0])
          (dictionary_backup agent4))).
Proof.
  apply (reduce_guesses_returns agent4 1 [2; 17; 0; 13; 4]
           [0; 1; 1; -1; 0] (W "CRANE")).
  - reflexivity.
  - repeat constructor.
Defined.

Lemma filter_length_lt {A : Type} (f : A -> bool) (l : list A) (x : A) :
  In x l -> f x = false -> (length (filter f l) < length l)%nat.
Proof.
  induction l as [|y t IH]; simpl; [intros []|].
  intros [->|Hin] Hf.
  - rewrite Hf. pose proof (filter_length_le f t). lia.
  - specialize (IH Hin Hf). destruct (f y); simpl; lia.
Qed.

(** A guess that is a candidate and is answered absent or present-misplaced
    at one of its positions is itself removed: on a normal return the
    candidate set is strictly smaller, and the guess is not guessed from it
    again. *)
Theorem reduce_guesses_drops_guess (self self' : WordleAgent) (gc : Z)
    (idx letter_states : list Z) (g : word) (i : nat) :
  letter_indices_to_word idx (letters self) = Ok g ->
  In g (dictionary_backup self) ->
  (i < length g)%nat ->
  nth_error letter_states i = Some 0 \/ nth_error letter_states i = Some (-1) ->
  reduce_guesses self (gc, idx, letter_states) = (Ok tt, self') ->
  ~ In g (dictionary_backup self')
  /\ (length (dictionary_backup self') < length (dictionary_backup self))%nat.
Proof.
  intros Hdec Hin Hi Hst Hred.
  pose proof (reduce_guesses_scans _ _ _ _ _ _ Hdec Hred) as Hall.
  rewrite Forall_forall in Hall. destruct (Hall g Hin) as [b Hb].
  assert (Hk : keeps g letter_states g = false).
  { destruct (keeps g letter_states g) eqn:E; [|reflexivity]. exfalso.
    pose proof (proj1 (keeps_consistent g letter_states g b Hb) E i Hi)
      as C. clear E. rename C into E. unfold consistent_at in E.
    destruct (nth_error g i) as [L|] eqn:EL;
      [|apply nth_error_None in EL; lia].
    assert (HL : In L g) by (eapply nth_error_In; eassumption).
    destruct Hst as [Hs|Hs]; rewrite Hs in E.
    - destruct E as (_ & _ & E). destruct (E eq_refl HL) as [_ N].
      apply N. reflexivity.
    - destruct E as (_ & E & _). destruct (E eq_refl) as [_ N].
      apply N. reflexivity. }
  destruct (reduce_guesses_filter _ _ _ _ _ Hred) as (g' & Hg' & ->).
  rewrite Hdec in Hg'. injection Hg' as <-. simpl. split.
  - rewrite filter_In. intros [_ F]. congruence.
  - eapply filter_length_lt; eassumption.
Qed.

Lemma reduce_guesses_drops_guess_witness :
  ~ In (W "CRANE")
      (dictionary_backup (set_backup agent4 [W "TRAIN"; W "BRAIN"]))
  /\ (length (dictionary_backup (set_backup agent4 [W "TRAIN"; W "BRAIN"]))
      < length (dictionary_backup agent4))%nat.
Proof.
  apply (reduce_guesses_drops_guess agent4
           (set_backup agent4 [W "TRAIN"; W "BRAIN"]) 1 [2; 17; 0; 13; 4]
           [0; 1; 1; -1; 0] (W "CRANE") 0).
  - reflexivity.
  - simpl. auto.
  - simpl. lia.
  - left. reflexivity.
  - reflexivity.
Defined.

(** * Further properties of the controller *)

Lemma reduce_guesses_backup_incl (self : WordleAgent) (p : percepts) :
  exists b, snd (reduce_guesses self p) = set_backup self b
            /\ incl b (dictionary_backup self).
Proof.
  destruct p as [[gc idx] st]. unfold reduce_guesses.
  destruct (letter_indices_to_word idx (letters self)) as [g|e].
  - pose proof (reduce_loop_shrinks g st (dictionary_backup self)
                  (dictionary_backup self)) as [_ H].
    destruct (reduce_loop g st (dictionary_backup self)
                (dictionary_backup self)) as [r b].
    exists b. split; [reflexivity | exact H].
  - exists (dictionary_backup self). simpl. split.
    + symmetry. apply set_backup_same.
    + apply incl_refl.
Qed.

Lemma drop_rejected_backup_incl (self : WordleAgent) (gc : Z) :
  exists b, snd (drop_rejected self gc) = set_backup self b
            /\ incl b (dictionary_backup self).
Proof.
  unfold drop_rejected. destruct (gc =? last_guess_counter self).
  - exists (dictionary_backup self). simpl. split.
    + symmetry. apply set_backup_same.
    + apply incl_refl.
  - destruct (calculate_scores self) as [ss|e]; simpl.
    + destruct (argmax ss) as [m|e]; simpl.
      * destruct (Py.getitem (dictionary_backup self) m) as [w|e]; simpl.
        -- destruct (Py.remove w (dictionary_backup self)) as [b|e] eqn:R.
           ++ exists b. split; [reflexivity|]. eapply remove_incl.
              eassumption.
           ++ exists (dictionary_backup self). simpl. split;
                [symmetry; apply set_backup_same | apply incl_refl].
        -- exists (dictionary_backup self). simpl. split;
             [symmetry; apply set_backup_same | apply incl_refl].
      * exists (dictionary_backup self). simpl. split;
          [symmetry; apply set_backup_same | apply incl_refl].
    + exists (dictionary_backup self). simpl. split;
        [symmetry; apply set_backup_same | apply incl_refl].
Qed.

(** One call, whatever it returns or raises: the dictionary stays, and the
    candidates stay words of the dictionary. *)
Lemma AgentFunction_incl (self : WordleAgent) (p : percepts) :
  incl (dictionary_backup self) (dictionary self) ->
  dictionary (snd (AgentFunction self p)) = dictionary self
  /\ incl (dictionary_backup (snd (AgentFunction self p))) (dictionary self).
Proof.
  intros Hinv. destruct p as [[gc idx] st]. unfold AgentFunction.
  destruct (get_first_guess _) as [r1 s1] eqn:E1.
  apply get_first_guess_frame in E1.
  destruct E1 as (Hd & Hb & _). simpl in Hd, Hb.
  destruct r1 as [[]|e]; [|simpl; rewrite Hd, Hb; auto].
  destruct (gc =? 0).
  { simpl. rewrite Hd. split; [reflexivity | apply incl_refl]. }
  destruct (reduce_guesses_backup_incl s1 (gc, idx, st)) as (b2 & F2 & I2).
  destruct (reduce_guesses s1 (gc, idx, st)) as [r2 s2]. simpl in F2.
  subst s2.
  assert (I2' : incl b2 (dictionary self))
    by (eapply incl_tran; [exact I2 | rewrite Hb; exact Hinv]).
  destruct r2 as [[]|e]; [|simpl; rewrite Hd; auto].
  destruct (drop_rejected_backup_incl (set_backup s1 b2) gc) as (b3 & F3 & I3).
  destruct (drop_rejected (set_backup s1 b2) gc) as [r3 s3]. simpl in F3, I3.
  subst s3.
  assert (I3' : incl b3 (dictionary self))
    by (eapply incl_tran; eassumption).
  destruct r3 as [[]|e]; simpl; rewrite Hd; auto.
Qed.

(** Through any run of calls, returning or raising, the dictionary stays
    as it is and every candidate stays a word of the dictionary; the
    candidates of a dictionary of one word length keep that length. *)
Theorem run_candidates_in_dictionary (self : WordleAgent)
    (ps : list percepts) :
  incl (dictionary_backup self) (dictionary self) ->
  dictionary (run self ps) = dictionary self
  /\ incl (dictionary_backup (run self ps)) (dictionary self)
  /\ (uniform (dictionary self) -> uniform (dictionary_backup (run self ps))).
Proof.
  revert self; induction ps as [|p rest IH]; intros self Hinv; simpl.
  - split; [reflexivity|]. split; [assumption|].
    intros [n Hn]. exists n. rewrite Forall_forall in *. auto.
  - destruct (AgentFunction_incl self p Hinv) as [Hd Hi].
    rewrite <- Hd in Hi. destruct (IH _ Hi) as (Hd' & Hi' & Hu').
    rewrite Hd in Hd', Hi', Hu'. auto.
Qed.

Lemma run_candidates_in_dictionary_witness :
  dictionary (run agent4 [(0, [], []); crane_percepts; slate_train_percepts])
  = dictionary agent4
  /\ incl (dictionary_backup
             (run agent4 [(0, [], []); crane_percepts; slate_train_percepts]))
       (dictionary agent4)
  /\ (uniform (dictionary agent4) ->
      uniform (dictionary_backup
                 (run agent4
                    [(0, [], []); crane_percepts; slate_train_percepts]))).
Proof.
  apply (run_candidates_in_dictionary agent4
           [(0, [], []); crane_percepts; slate_train_percepts]).
  apply incl_refl.
Defined.

(** Every game of a process starts alike: once the opener is cached, a
    turn 0 after any run of calls puts the full dictionary back as the
    candidate set, sets the counter to 0 and answers the dictionary word at
    the cached index, whatever the percepts carry and whatever the run left
    behind. *)
Theorem AgentFunction_new_game (self : WordleAgent) (ps : list percepts)
    (idx st : list Z) :
  has_run self = true ->
  AgentFunction (run self ps) (0, idx, st)
  = (match nth_error (dictionary self) (first_guess_index self) with
     | Some w => Ok (Some w)
     | None => Raise IndexError
     end,
     set_backup (set_counter (run self ps) 0) (dictionary self)).
Proof.
  intros H. destruct (run_cache ps self H) as (Hr & Hi & Hd).
  unfold AgentFunction, get_first_guess. simpl has_run. rewrite Hr.
  simpl. unfold Py.getitem. rewrite Hi, Hd.
  destruct (nth_error (dictionary self) (first_guess_index self));
    reflexivity.
Qed.

Lemma AgentFunction_new_game_witness :
  AgentFunction (run agent3_opened [slate_percepts]) (0, [], [])
  = (match nth_error (dictionary agent3_opened)
             (first_guess_index agent3_opened) with
     | Some w => Ok (Some w)
     | None => Raise IndexError
     end,
     set_backup (set_counter (run agent3_opened [slate_percepts]) 0)
       (dictionary agent3_opened)).
Proof.
  apply (AgentFunction_new_game agent3_opened [slate_percepts] [] []).
  reflexivity.
Defined.

(** An agent built when the flag of [run_once] is already set, as a second
    agent of one process is, never computes an opener: on every turn 0,
    after any run of calls, it answers the first word of its dictionary. *)
Theorem AgentFunction_second_agent (dict : list word) (ls : list ascii)
    (wl ng : Z) (m : string) (ps : list percepts) (idx st : list Z) :
  fst (AgentFunction (run (init dict ls wl ng m true) ps) (0, idx, st))
  = match dict with
    | w :: _ => Ok (Some w)
    | [] => Raise IndexError
    end.
Proof.
  destruct (run_cache ps (init dict ls wl ng m true) eq_refl)
    as (Hr & Hi & Hd).
  unfold AgentFunction, get_first_guess. simpl has_run. rewrite Hr.
  simpl. unfold Py.getitem. rewrite Hi, Hd. simpl.
  destruct dict; reflexivity.
Qed.

Lemma AgentFunction_counter (self : WordleAgent) (gc : Z)
    (idx st : list Z) :
  gc <> 0 ->
  last_guess_counter (snd (AgentFunction self (gc, idx, st)))
  = last_guess_counter self + 1.
Proof.
  intros Hgc. unfold AgentFunction.
  destruct (get_first_guess _) as [r1 s1] eqn:E1.
  apply get_first_guess_frame in E1. destruct E1 as (_ & _ & Hc & _).
  simpl in Hc. destruct r1 as [[]|e]; [|simpl; assumption].
  destruct (Z.eqb_spec gc 0); [contradiction|].
  destruct (reduce_guesses_frame s1 (gc, idx, st)) as [b2 F2].
  destruct (reduce_guesses s1 (gc, idx, st)) as [r2 s2]. simpl in F2.
  subst s2. destruct r2 as [[]|e]; [|simpl; assumption].
  destruct (drop_rejected_frame (set_backup s1 b2) gc) as [b3 F3].
  destruct (drop_rejected (set_backup s1 b2) gc) as [r3 s3]. simpl in F3.
  subst s3. destruct r3 as [[]|e]; simpl; assumption.
Qed.

(** The internal counter grows by one on every call of a turn other than
    turn 0, whether the call returns or raises, and nothing else moves it.
    So a rejection is not forgotten: when the external index is behind the
    incremented counter on one turn, it is behind again on the next turn,
    whether the external index is repeated or advanced by one, and that
    turn takes the rejection step too. *)
Theorem AgentFunction_desync_persists (self : WordleAgent) (gc gc' : Z)
    (idx st : list Z) :
  gc <> 0 ->
  gc < last_guess_counter self + 1 ->
  gc' <= gc + 1 ->
  let self' := snd (AgentFunction self (gc, idx, st)) in
  last_guess_counter self' = last_guess_counter self + 1
  /\ gc' < last_guess_counter self' + 1
  /\ forall s, last_guess_counter s = last_guess_counter self' + 1 ->
       dictionary_backup s <> [] ->
       uniform (dictionary_backup s) ->
       exists m, (m < length (dictionary_backup s))%nat
         /\ drop_rejected s gc'
            = (Ok tt, set_backup s (without_nth m (dictionary_backup s))).
Proof.
  intros Hgc Hlt Hle self'. subst self'.
  pose proof (AgentFunction_counter self gc idx st Hgc) as Hc.
  split; [exact Hc|]. split; [lia|].
  intros s Hs Hne Hun.
  destruct (drop_rejected_disagree s gc') as (ss & m & w & _ & _ & Hw & Hd);
    [lia | assumption | assumption |].
  exists m. split; [apply nth_error_Some; congruence | exact Hd].
Qed.

Lemma AgentFunction_desync_persists_witness :
  last_guess_counter
    (snd (AgentFunction (set_counter eeks_agent 1) seeks_repeated_percepts))
  = last_guess_counter (set_counter eeks_agent 1) + 1
  /\ 2 < last_guess_counter
           (snd (AgentFunction (set_counter eeks_agent 1)
                   seeks_repeated_percepts)) + 1
  /\ forall s,
       last_guess_counter s
       = last_guess_counter
           (snd (AgentFunction (set_counter eeks_agent 1)
                   seeks_repeated_percepts)) + 1 ->
       dictionary_backup s <> [] ->
       uniform (dictionary_backup s) ->
       exists m, (m < length (dictionary_backup s))%nat
         /\ drop_rejected s 2
            = (Ok tt, set_backup s (without_nth m (dictionary_backup s))).
Proof.
  apply (AgentFunction_desync_persists (set_counter eeks_agent 1) 1 2
           [18; 4; 4; 10; 18] [0; 1; 1; 1; 1]).
  - discriminate.
  - simpl. lia.
  - lia.
Defined.

(** ** Exceptions of the scorer *)

Lemma probability_loop_Raise (backup : list word) (c : ascii) (pos freq : nat)
    (e : exn) :
  probability_loop backup c pos freq = Raise e -> e = IndexError.
Proof.
  revert freq; induction backup as [|w t IH]; intros freq; simpl;
    [discriminate|].
  destruct (Py.getitem w pos) eqn:E; simpl.
  - apply IH.
  - intros H. injection H as <-. eapply getitem_Raise. eassumption.
Qed.

Lemma probability_Raise (self : WordleAgent) (c : ascii) (pos : nat)
    (e : exn) :
  probability self c pos = Raise e ->
  e = IndexError \/ (e = ZeroDivisionError /\ dictionary_backup self = []).
Proof.
  unfold probability.
  destruct (probability_loop (dictionary_backup self) c pos 0) eqn:E; simpl.
  - destruct (dictionary_backup self); simpl; [|discriminate].
    intros H. injection H as <-. auto.
  - intros H. injection H as <-. left. eapply probability_loop_Raise.
    eassumption.
Qed.

Lemma score_Raise (self : WordleAgent) (w : word) (e : exn) :
  score self w = Raise e ->
  e = IndexError \/ (e = ZeroDivisionError /\ dictionary_backup self = []).
Proof.
  unfold score.
  generalize (seq 0 (length w)) as ps, 0%float as s, false as d.
  induction ps as [|i rest IH]; intros s d; simpl; [discriminate|].
  destruct (Py.getitem w i) as [c|e1] eqn:Ec; simpl.
  - unfold entropy.
    destruct (probability self c i) as [p|e1] eqn:Ep; simpl.
    + apply IH.
    + intros H. injection H as <-. eapply probability_Raise. eassumption.
  - intros H. injection H as <-. left. eapply getitem_Raise. eassumption.
Qed.

Lemma calculate_scores_Raise (self : WordleAgent) (e : exn) :
  calculate_scores self = Raise e -> e = IndexError.
Proof.
  unfold calculate_scores.
  assert (G : forall ws, scores_of self ws = Raise e ->
                e = IndexError
                \/ (e = ZeroDivisionError /\ dictionary_backup self = [])).
  { induction ws as [|w t IH]; simpl; [discriminate|].
    destruct (score self w) eqn:Es; simpl.
    - destruct (scores_of self t); simpl; [discriminate|].
      intros H. injection H as <-. apply IH. reflexivity.
    - intros H. injection H as <-. eapply score_Raise. eassumption. }
  intros H. destruct (G _ H) as [->|[_ Hb]]; [reflexivity|].
  rewrite Hb in H. discriminate.
Qed.

Lemma calculate_scores_length (self : WordleAgent) (ss : list float) :
  calculate_scores self = Ok ss -> length ss = length (dictionary_backup self).
Proof. intros H. apply (scores_of_nth _ _ _ H). Qed.

(** A first computation of the opener that fails is not tried again: when
    [get_first_guess] raises, which it does with [ValueError] on an empty
    candidate set and with [IndexError] otherwise, the flag is set all the
    same and the index is left at its value, so that the next invocation
    returns at once. *)
Theorem get_first_guess_failure (self self' : WordleAgent) (e : exn) :
  get_first_guess self = (Raise e, self') ->
  has_run self = false
  /\ self' = set_has_run self true
  /\ get_first_guess self' = (Ok tt, self')
  /\ (dictionary_backup self = [] -> e = ValueError)
  /\ (dictionary_backup self <> [] -> e = IndexError).
Proof.
  unfold get_first_guess at 1. destruct (has_run self) eqn:Hr;
    [discriminate|].
  destruct (calculate_scores (set_has_run self true)) as [ss|e1] eqn:Ecs;
    simpl.
  - destruct (argmax ss) as [m|e1] eqn:Em; [discriminate|].
    intros H. injection H as <- <-.
    apply argmax_Raise in Em. destruct Em as [-> ->].
    apply calculate_scores_length in Ecs. simpl in Ecs.
    repeat split; try reflexivity.
    intros N. destruct (dictionary_backup self); [congruence|discriminate].
  - intros H. injection H as <- <-.
    pose proof (calculate_scores_Raise _ _ Ecs) as ->.
    repeat split; try reflexivity.
    intros Hb. unfold calculate_scores in Ecs. simpl in Ecs.
    rewrite Hb in Ecs. discriminate.
Qed.

Lemma get_first_guess_failure_witness :
  has_run empty_agent = false
  /\ set_has_run empty_agent true = set_has_run empty_agent true
  /\ get_first_guess (set_has_run empty_agent true)
     = (Ok tt, set_has_run empty_agent true)
  /\ (dictionary_backup empty_agent = [] -> ValueError = ValueError)
  /\ (dictionary_backup empty_agent <> [] -> ValueError = IndexError).
Proof.
  apply (get_first_guess_failure empty_agent (set_has_run empty_agent true)
           ValueError).
  reflexivity.
Defined.

(** ** Exceptions of a call *)

Lemma index_Raise (z : Z) (l : list Z) (e : exn) :
  Py.index z l = Raise e -> e = ValueError.
Proof.
  induction l as [|x t IH]; simpl; [intros H; injection H; auto|].
  destruct (x =? z); [discriminate|].
  destruct (Py.index z t); simpl; [discriminate|].
  intros H. injection H as <-. apply IH. reflexivity.
Qed.

Lemma possible_letters_of_Raise (backup : list word) (pos : nat) (e : exn) :
  possible_letters_of backup pos = Raise e -> e = IndexError.
Proof.
  induction backup as [|w t IH]; simpl; [discriminate|].
  destruct (Py.getitem w pos) eqn:E; simpl.
  - destruct (possible_letters_of t pos); simpl; [discriminate|].
    intros H. injection H as <-. apply IH. reflexivity.
  - intros H. injection H as <-. eapply getitem_Raise. eassumption.
Qed.

(** Once the flag is bound it stays bound. *)
Lemma smart_scores_bound (possible_letters : list ascii) (dict : list word)
    (b : bool) :
  exists ss, smart_scores possible_letters dict (Some b) = Ok ss.
Proof.
  revert b; induction dict as [|w t IH]; intros b; simpl; [eauto|].
  rewrite smart_chars_spec. destruct (rev w) as [|c r].
  - destruct (IH b) as [ss ->]. simpl. eauto.
  - destruct (IH (Py.contains c possible_letters
                  && Nat.ltb 1 (Py.count c w))) as [ss ->].
    simpl. eauto.
Qed.

Lemma smart_scores_Raise (possible_letters : list ascii) (dict : list word)
    (e : exn) :
  smart_scores possible_letters dict None = Raise e ->
  e = UnboundLocalError /\ exists t, dict = [] :: t.
Proof.
  destruct dict as [|w t]; simpl; [discriminate|].
  rewrite smart_chars_spec. destruct w as [|c w]; simpl.
  - intros H. injection H as <-. eauto.
  - destruct (rev w ++ [c]) as [|y r] eqn:R.
    + destruct (rev w); discriminate.
    + destruct (smart_scores_bound possible_letters t
                  (Py.contains y possible_letters
                   && Nat.ltb 1 (Py.count y (c :: w)))) as [ss Hss].
      simpl in Hss. rewrite Hss. discriminate.
Qed.

Lemma smart_guess_Raise (self : WordleAgent) (p : percepts) (e : exn) :
  smart_guess self p = Raise e ->
  e = IndexError \/ e = ValueError
  \/ (e = UnboundLocalError /\ exists t, dictionary self = [] :: t).
Proof.
  destruct p as [[gc idx] st]. unfold smart_guess.
  destruct (Py.index 0 st) as [grey|e1] eqn:E1; simpl;
    [|intros H; injection H as <-; right; left; eapply index_Raise;
      eassumption].
  destruct (possible_letters_of (dictionary_backup self) grey)
    as [pl|e1] eqn:E2; simpl;
    [|intros H; injection H as <-; left;
      eapply possible_letters_of_Raise; eassumption].
  destruct (smart_scores pl (dictionary self) None) as [ss|e1] eqn:E3; simpl;
    [|intros H; injection H as <-; right; right;
      eapply smart_scores_Raise; eassumption].
  destruct (argmax ss) as [m|e1] eqn:E4; simpl;
    [|intros H; injection H as <-; right; left;
      eapply argmax_Raise; eassumption].
  intros H. left. eapply getitem_Raise. eassumption.
Qed.

Lemma remove_Raise (w : word) (l : list word) (e : exn) :
  Py.remove w l = Raise e -> e = ValueError.
Proof.
  induction l as [|x t IH]; simpl; [intros H; injection H; auto|].
  destruct (Py.str_eqb x w); [discriminate|].
  destruct (Py.remove w t); simpl; [discriminate|].
  intros H. injection H as <-. apply IH. reflexivity.
Qed.

Lemma pick_Raise (self : WordleAgent) (e : exn) :
  (scores <- calculate_scores self ;; argmax scores) = Raise e ->
  e = IndexError \/ e = ValueError.
Proof.
  destruct (calculate_scores self) as [ss|e1] eqn:E1; simpl.
  - intros H. apply argmax_Raise in H. tauto.
  - intros H. injection H as <-. left. eapply calculate_scores_Raise.
    eassumption.
Qed.

Lemma get_first_guess_Raise (self self' : WordleAgent) (e : exn) :
  get_first_guess self = (Raise e, self') ->
  e = IndexError \/ e = ValueError.
Proof.
  unfold get_first_guess. destruct (has_run self); [discriminate|].
  destruct (scores <- calculate_scores (set_has_run self true) ;;
            argmax scores) as [m|e1] eqn:E; [discriminate|].
  intros H. injection H as <- _. eapply pick_Raise. eassumption.
Qed.

Lemma get_first_guess_letters (self self' : WordleAgent) (r : result unit) :
  get_first_guess self = (r, self') -> letters self' = letters self.
Proof.
  unfold get_first_guess. destruct (has_run self).
  - intros H. injection H as _ <-. reflexivity.
  - destruct (scores <- calculate_scores (set_has_run self true) ;;
              argmax scores); intros H; injection H as _ <-; reflexivity.
Qed.

Lemma drop_rejected_Raise (self self' : WordleAgent) (gc : Z) (e : exn) :
  drop_rejected self gc = (Raise e, self') ->
  e = IndexError \/ e = ValueError.
Proof.
  unfold drop_rejected. destruct (gc =? last_guess_counter self);
    [discriminate|].
  destruct (calculate_scores self) as [ss|e1] eqn:E1; simpl.
  - destruct (argmax ss) as [m|e1] eqn:E2; simpl.
    + destruct (Py.getitem (dictionary_backup self) m) as [w|e1] eqn:E3;
        simpl.
      * destruct (Py.remove w (dictionary_backup self)) as [b|e1] eqn:E4;
          [discriminate|].
        intros H. injection H as <- _. right. eapply remove_Raise.
        eassumption.
      * intros H. injection H as <- _. left. eapply getitem_Raise.
        eassumption.
    + intros H. injection H as <- _. apply argmax_Raise in E2. tauto.
  - intros H. injection H as <- _. left. eapply calculate_scores_Raise.
    eassumption.
Qed.

Lemma next_guess_Raise (self : WordleAgent) (p : percepts) (e : exn) :
  next_guess self p = Raise e ->
  e = IndexError \/ e = ValueError
  \/ (e = UnboundLocalError /\ exists t, dictionary self = [] :: t).
Proof.
  unfold next_guess. destruct (dictionary_backup self) as [|x t] eqn:Eb;
    [discriminate|].
  rewrite <- Eb. destruct (stuck self p).
  - destruct (smart_guess self p) eqn:E; simpl; [discriminate|].
    intros H. injection H as <-. eapply smart_guess_Raise. eassumption.
  - destruct (scores <- calculate_scores self ;; argmax scores)
      as [m|e1] eqn:E.
    + destruct (calculate_scores self); simpl in *; [|discriminate].
      rewrite E. simpl.
      destruct (Py.getitem (dictionary_backup self) m) eqn:E3; simpl;
        [discriminate|].
      intros H. injection H as <-. left. eapply getitem_Raise. eassumption.
    + apply pick_Raise in E as Hc.
      destruct (calculate_scores self); simpl in *.
      * rewrite E. simpl. intros H. injection H as <-. tauto.
      * intros H. injection H as <-. injection E as <-. tauto.
Qed.

Lemma reduce_guesses_Raise (self self' : WordleAgent) (gc : Z)
    (idx st : list Z) (g : word) (e : exn) :
  letter_indices_to_word idx (letters self) = Ok g ->
  reduce_guesses self (gc, idx, st) = (Raise e, self') ->
  e = IndexError.
Proof.
  intros Hdec Hred. unfold reduce_guesses in Hred. rewrite Hdec in Hred.
  destruct (first_raise g st (dictionary_backup self))
    as [Hall|(pre & w & post & e1 & Hb & Hp & Hw)].
  - pose proof (reduce_loop_filter g st (dictionary_backup self) []
                  (Forall_nil _) Hall) as F.
    simpl in F. rewrite F in Hred. discriminate.
  - pose proof (reduce_loop_raise g st pre w post [] e1 (Forall_nil _) Hp Hw)
      as F.
    simpl in F. rewrite Hb, F in Hred. injection Hred as <- _.
    eapply removes_Raise. eassumption.
Qed.

(** What a call of [AgentFunction] can raise, the decoding of the guess
    apart: [IndexError] or [ValueError], and [UnboundLocalError] only when
    the dictionary begins with the empty word.  It never raises
    [ZeroDivisionError]: a probability is only asked for over a candidate
    set that is not empty. *)
Theorem AgentFunction_raises (self self' : WordleAgent) (gc : Z)
    (idx st : list Z) (e : exn) :
  (gc <> 0 -> exists g, letter_indices_to_word idx (letters self) = Ok g) ->
  AgentFunction self (gc, idx, st) = (Raise e, self') ->
  e = IndexError \/ e = ValueError
  \/ (e = UnboundLocalError /\ exists t, dictionary self = [] :: t).
Proof.
  intros Hdec. unfold AgentFunction.
  destruct (get_first_guess _) as [r1 s1] eqn:E1.
  pose proof (get_first_guess_letters _ _ _ E1) as Hl. simpl in Hl.
  pose proof (get_first_guess_frame _ _ _ E1) as (Hd & _). simpl in Hd.
  destruct r1 as [[]|e1].
  - destruct (Z.eqb_spec gc 0) as [_|Hgc].
    + simpl. destruct (Py.getitem (dictionary s1) (first_guess_index s1))
        eqn:E; simpl; [discriminate|].
      intros H. injection H as <- _. left. eapply getitem_Raise.
      eassumption.
    + destruct (Hdec Hgc) as [g Hg]. rewrite <- Hl in Hg.
      destruct (reduce_guesses_frame s1 (gc, idx, st)) as [b2 F2].
      destruct (reduce_guesses s1 (gc, idx, st)) as [r2 s2] eqn:E2.
      simpl in F2. subst s2. destruct r2 as [[]|e2].
      * destruct (drop_rejected_frame (set_backup s1 b2) gc) as [b3 F3].
        destruct (drop_rejected (set_backup s1 b2) gc) as [r3 s3] eqn:E3.
        simpl in F3. subst s3. destruct r3 as [[]|e3].
        -- intros H. injection H as H _.
           apply next_guess_Raise in H. simpl in H. rewrite Hd in H.
           exact H.
        -- intros H. injection H as <- _.
           apply drop_rejected_Raise in E3. tauto.
      * intros H. injection H as <- _. left.
        eapply reduce_guesses_Raise; eassumption.
  - intros H. injection H as <- _.
    apply get_first_guess_Raise in E1. tauto.
Qed.

Lemma AgentFunction_raises_witness :
  UnboundLocalError = IndexError \/ UnboundLocalError = ValueError
  \/ (UnboundLocalError = UnboundLocalError
      /\ exists t, dictionary blank_agent = [] :: t).
Proof.
  apply (AgentFunction_raises blank_agent
           (set_backup (set_counter blank_agent 1)
              [W "BRAIN"; W "DRAIN"; W "TRAIN"])
           1 [6; 17; 0; 8; 13] [0; 1; 1; 1; 1] UnboundLocalError).
  - intros _. exists (W "GRAIN"). reflexivity.
  - vm_compute. reflexivity.
Defined.

(** ** The turn of a game in full *)

Lemma count_Z_all (z : Z) (l : list Z) :
  Py.count_Z z l = length l -> Forall (fun x => x = z) l.
Proof.
  assert (Hle : forall t, (Py.count_Z z t <= length t)%nat).
  { induction t as [|y t IH]; simpl; [lia|]. destruct (y =? z); lia. }
  induction l as [|x t IH]; simpl; intros H; [constructor|].
  destruct (Z.eqb_spec x z) as [->|N].
  - constructor; [reflexivity|]. apply IH. lia.
  - specialize (Hle t). lia.
Qed.

Lemma count_Z_all_but_one (z : Z) (l : list Z) (i : nat) (a : Z) :
  S (Py.count_Z z l) = length l ->
  nth_error l i = Some a -> a <> z ->
  forall j, (j < length l)%nat -> j <> i -> nth_error l j = Some z.
Proof.
  revert i; induction l as [|x t IH]; simpl; intros i Hc Hi Ha j Hj Hne;
    [lia|].
  destruct (Z.eqb_spec x z) as [->|N].
  - destruct i as [|i]; simpl in Hi; [congruence|].
    destruct j as [|j]; [reflexivity|]. simpl.
    apply (IH i); try assumption; lia.
  - assert (Hall : Forall (fun y => y = z) t) by (apply count_Z_all; lia).
    rewrite Forall_forall in Hall.
    destruct i as [|i]; simpl in Hi.
    + destruct j as [|j]; [congruence|]. simpl.
      destruct (nth_error t j) as [y|] eqn:E;
        [|apply nth_error_None in E; lia].
      f_equal. apply Hall. eapply nth_error_In. eassumption.
    + exfalso. apply Ha, Hall. eapply nth_error_In. eassumption.
Qed.

Lemma index_nth (z : Z) (l : list Z) (i : nat) :
  Py.index z l = Ok i -> nth_error l i = Some z.
Proof.
  revert i; induction l as [|x t IH]; simpl; intros i; [discriminate|].
  destruct (Z.eqb_spec x z) as [->|N].
  - intros H. injection H as <-. reflexivity.
  - destruct (Py.index z t) as [k|e]; simpl; [|discriminate].
    intros H. injection H as <-. simpl. apply IH. reflexivity.
Qed.

Lemma index_In (z : Z) (l : list Z) :
  In z l -> exists i, Py.index z l = Ok i.
Proof.
  induction l as [|x t IH]; simpl; [intros []|].
  destruct (Z.eqb_spec x z) as [->|N]; [eauto|].
  intros [E|Hin]; [contradiction|].
  destruct (IH Hin) as [i ->]. simpl. eauto.
Qed.

(** When the heuristic takes the turn on feedback that has one state for
    each of the [word_length] positions and an absent state among them,
    the position that [smart_guess] works on is the only one that is not
    marked correct. *)
Theorem smart_guess_grey_position (self : WordleAgent) (gc : Z)
    (idx letter_states : list Z) :
  stuck self (gc, idx, letter_states) = true ->
  Z.of_nat (length letter_states) = word_length self ->
  In 0 letter_states ->
  exists grey_pos,
    Py.index 0 letter_states = Ok grey_pos
    /\ nth_error letter_states grey_pos = Some 0
    /\ forall j, (j < length letter_states)%nat -> j <> grey_pos ->
         nth_error letter_states j = Some 1.
Proof.
  intros Hst Hlen Hin. destruct (index_In _ _ Hin) as [grey Hg].
  pose proof (index_nth _ _ _ Hg) as Hn.
  exists grey. split; [assumption|]. split; [assumption|].
  unfold stuck in Hst.
  apply andb_true_iff in Hst. destruct Hst as [_ Hgreen].
  apply Z.eqb_eq in Hgreen. simpl in Hgreen.
  apply (count_Z_all_but_one 1 letter_states grey 0); [lia | assumption | lia].
Qed.

Lemma smart_guess_grey_position_witness :
  exists grey_pos,
    Py.index 0 [0; 1; 1; 1; 1] = Ok grey_pos
    /\ nth_error [0; 1; 1; 1; 1] grey_pos = Some 0
    /\ forall j, (j < length [0; 1; 1; 1; 1])%nat -> j <> grey_pos ->
         nth_error [0; 1; 1; 1; 1] j = Some 1.
Proof.
  apply (smart_guess_grey_position
           (set_backup rain_agent [W "BRAIN"; W "DRAIN"; W "TRAIN"])
           1 [6; 17; 0; 8; 13] [0; 1; 1; 1; 1]).
  - reflexivity.
  - reflexivity.
  - simpl. auto.
Defined.

(** A turn other than turn 0, once the opener is cached and the percepts
    fit the candidates: the rejection step and the selection run on the
    state that the reducer leaves. *)
Lemma AgentFunction_turn (self : WordleAgent) (gc : Z) (idx st : list Z)
    (g : word) :
  has_run self = true ->
  gc <> 0 ->
  letter_indices_to_word idx (letters self) = Ok g ->
  Forall (fun w => (length w <= length st)%nat /\ (length w <= length g)%nat)
    (dictionary_backup self) ->
  AgentFunction self (gc, idx, st)
  = match drop_rejected (after_reducer self g st) gc with
    | (Raise e, s) => (Raise e, s)
    | (Ok _, s) => (next_guess s (gc, idx, st), s)
    end.
Proof.
  intros Hr Hgc Hdec Hlen. unfold AgentFunction, get_first_guess.
  simpl has_run. rewrite Hr.
  destruct (Z.eqb_spec gc 0); [contradiction|].
  rewrite (reduce_guesses_from_scans _ gc idx st g);
    [reflexivity | exact Hdec | apply scans_of_lengths; exact Hlen].
Qed.

Lemma next_guess_normal (self : WordleAgent) (p : percepts) :
  stuck self p = false ->
  dictionary_backup self <> [] ->
  uniform (dictionary_backup self) ->
  exists scores m w,
    calculate_scores self = Ok scores
    /\ first_max scores m
    /\ nth_error (dictionary_backup self) m = Some w
    /\ next_guess self p = Ok (Some w).
Proof.
  intros Hst Hne Hun.
  destruct (calculate_scores_Ok self Hun) as (ss & Hss & Hlen).
  destruct (argmax_Ok ss) as [m Hm].
  { intros ->. destruct (dictionary_backup self); [congruence|discriminate]. }
  pose proof (argmax_lt _ _ Hm) as Hlt.
  destruct (nth_error (dictionary_backup self) m) as [w|] eqn:Hw;
    [|apply nth_error_None in Hw; lia].
  exists ss, m, w. split; [assumption|].
  split; [apply argmax_first_max; assumption|]. split; [exact Hw|].
  unfold next_guess. destruct (dictionary_backup self) as [|x t] eqn:Eb;
    [congruence|].
  rewrite Hst, Hss. simpl. rewrite Hm. simpl. unfold Py.getitem.
  rewrite Hw. reflexivity.
Qed.

Lemma uniform_filter (f : word -> bool) (ws : list word) :
  uniform ws -> uniform (filter f ws).
Proof. intros [n H]. exists n. apply Forall_filter. assumption. Qed.

(** The normal turn in full.  With the opener cached, the counters in
    step, a state and a guessed letter for each of the [n] positions of
    the candidates, and the stuck condition not met after the reducer:
    the call leaves the filtered candidates, and returns [None] when none
    is left, the first candidate of maximum score otherwise. *)
Theorem AgentFunction_normal_turn (self : WordleAgent) (gc : Z)
    (idx st : list Z) (g : word) (n : nat) :
  has_run self = true ->
  gc <> 0 ->
  gc = last_guess_counter self + 1 ->
  letter_indices_to_word idx (letters self) = Ok g ->
  Forall (fun w => length w = n) (dictionary_backup self) ->
  (n <= length st)%nat ->
  (n <= length g)%nat ->
  stuck (after_reducer self g st) (gc, idx, st) = false ->
  (dictionary_backup (after_reducer self g st) = [] ->
   AgentFunction self (gc, idx, st) = (Ok None, after_reducer self g st))
  /\ (dictionary_backup (after_reducer self g st) <> [] ->
      exists scores m w,
        calculate_scores (after_reducer self g st) = Ok scores
        /\ first_max scores m
        /\ nth_error (dictionary_backup (after_reducer self g st)) m = Some w
        /\ AgentFunction self (gc, idx, st)
           = (Ok (Some w), after_reducer self g st)).
Proof.
  intros Hr Hgc Hc Hdec Hn Hs Hg Hst.
  assert (HA : AgentFunction self (gc, idx, st)
               = (next_guess (after_reducer self g st) (gc, idx, st),
                  after_reducer self g st)).
  { rewrite (AgentFunction_turn self gc idx st g Hr Hgc Hdec).
    - rewrite drop_rejected_agree; [reflexivity|]. simpl. assumption.
    - eapply Forall_impl; [|exact Hn]. simpl. intros w ->. auto. }
  split.
  - intros Hb. rewrite HA. unfold next_guess. rewrite Hb. reflexivity.
  - intros Hb.
    destruct (next_guess_normal (after_reducer self g st) (gc, idx, st))
      as (ss & m & w & Hss & Hfm & Hw & Hng);
      [assumption | assumption | |].
    + simpl. apply uniform_filter. exists n. assumption.
    + exists ss, m, w. rewrite HA, Hng. auto.
Qed.

Lemma AgentFunction_normal_turn_witness :
  (dictionary_backup
     (after_reducer agent4_opened (W "CRANE") [0; 1; 1; -1; 0]) = [] ->
   AgentFunction agent4_opened crane_percepts
   = (Ok None, after_reducer agent4_opened (W "CRANE") [0; 1; 1; -1; 0]))
  /\ (dictionary_backup
        (after_reducer agent4_opened (W "CRANE") [0; 1; 1; -1; 0]) <> [] ->
      exists scores m w,
        calculate_scores
          (after_reducer agent4_opened (W "CRANE") [0; 1; 1; -1; 0])
        = Ok scores
        /\ first_max scores m
        /\ nth_error
             (dictionary_backup
                (after_reducer agent4_opened (W "CRANE") [0; 1; 1; -1; 0]))
             m = Some w
        /\ AgentFunction agent4_opened crane_percepts
           = (Ok (Some w),
              after_reducer agent4_opened (W "CRANE") [0; 1; 1; -1; 0])).
Proof.
  apply (AgentFunction_normal_turn agent4_opened 1 [2; 17; 0; 13; 4]
           [0; 1; 1; -1; 0] (W "CRANE") 5).
  - reflexivity.
  - discriminate.
  - reflexivity.
  - reflexivity.
  - repeat constructor.
  - simpl. lia.
  - simpl. lia.
  - reflexivity.
Defined.

(** A rejection costs the last candidate: when the counters differ and the
    reducer leaves one candidate, the rejection step removes it, and the
    call returns [None] over an empty candidate set. *)
Theorem AgentFunction_rejects_last_candidate (self : WordleAgent) (gc : Z)
    (idx st : list Z) (g w : word) :
  has_run self = true ->
  gc <> 0 ->
  gc <> last_guess_counter self + 1 ->
  letter_indices_to_word idx (letters self) = Ok g ->
  Forall (fun c => (length c <= length st)%nat /\ (length c <= length g)%nat)
    (dictionary_backup self) ->
  dictionary_backup (after_reducer self g st) = [w] ->
  AgentFunction self (gc, idx, st)
  = (Ok None, set_backup (after_reducer self g st) []).
Proof.
  intros Hr Hgc Hc Hdec Hlen Hb.
  rewrite (AgentFunction_turn self gc idx st g Hr Hgc Hdec Hlen).
  destruct (drop_rejected_disagree (after_reducer self g st) gc)
    as (ss & m & w' & _ & _ & Hw & Hd).
  - simpl. assumption.
  - rewrite Hb. discriminate.
  - rewrite Hb. exists (length w). repeat constructor.
  - rewrite Hd. rewrite Hb in Hw |- *.
    destruct m as [|m]; [|destruct m; discriminate].
    reflexivity.
Qed.

Lemma AgentFunction_rejects_last_candidate_witness :
  AgentFunction (set_counter agent4_opened 1) slate_rejected_percepts
  = (Ok None,
     set_backup
       (after_reducer (set_counter agent4_opened 1) (W "SLATE")
          [0; 0; 1; -1; 0]) []).
Proof.
  apply (AgentFunction_rejects_last_candidate (set_counter agent4_opened 1)
           1 [18; 11; 0; 19; 4] [0; 0; 1; -1; 0] (W "SLATE") (W "TRAIN")).
  - reflexivity.
  - discriminate.
  - simpl. lia.
  - reflexivity.
  - repeat constructor.
  - vm_compute. reflexivity.
Defined.

Lemma possible_letters_of_Ok (backup : list word) (grey_pos : nat) :
  Forall (fun w => (grey_pos < length w)%nat) backup ->
  possible_letters_of backup grey_pos = Ok (letters_at grey_pos backup).
Proof.
  induction 1 as [|w t Hw _ IH]; simpl; [reflexivity|].
  unfold Py.getitem.
  destruct (nth_error w grey_pos) as [c|] eqn:E;
    [|apply nth_error_None in E; lia].
  simpl. rewrite IH. simpl. f_equal. f_equal.
  symmetry. apply nth_error_nth. assumption.
Qed.

Lemma smart_scores_code (possible_letters : list ascii) (dict : list word)
    (double_letter : option bool) :
  Forall (fun w => w <> []) dict ->
  smart_scores possible_letters dict double_letter
  = Ok (map (stuck_score_code possible_letters) dict).
Proof.
  intros Hne. revert double_letter.
  induction Hne as [|w t Hw _ IH]; intros dl; simpl; [reflexivity|].
  rewrite smart_chars_spec. unfold stuck_score_code. simpl.
  destruct (rev w) as [|c r] eqn:R.
  - exfalso. apply Hw. apply (f_equal (@rev ascii)) in R.
    rewrite rev_involutive in R. assumption.
  - rewrite IH. reflexivity.
Qed.

(** The stuck turn in full.  With the opener cached, the counters in step,
    one state for each of the [n] positions of the candidates, an absent
    state among them, and the stuck condition met after the reducer: the
    call leaves the filtered candidates and returns the first word of the
    full dictionary that is best by the score of the heuristic, taken over
    the letters that the candidates have at the first absent position. *)
Theorem AgentFunction_stuck_turn (self : WordleAgent) (gc : Z)
    (idx st : list Z) (g : word) (n : nat) :
  has_run self = true ->
  gc <> 0 ->
  gc = last_guess_counter self + 1 ->
  letter_indices_to_word idx (letters self) = Ok g ->
  Forall (fun w => length w = n) (dictionary_backup self) ->
  length st = n ->
  (n <= length g)%nat ->
  stuck (after_reducer self g st) (gc, idx, st) = true ->
  In 0 st ->
  dictionary self <> [] ->
  Forall (fun w => w <> []) (dictionary self) ->
  exists grey_pos m w,
    Py.index 0 st = Ok grey_pos
    /\ first_max
         (map (stuck_score_code
                 (letters_at grey_pos
                    (dictionary_backup (after_reducer self g st))))
            (dictionary self)) m
    /\ nth_error (dictionary self) m = Some w
    /\ AgentFunction self (gc, idx, st)
       = (Ok (Some w), after_reducer self g st).
Proof.
  intros Hr Hgc Hc Hdec Hn Hs Hg Hst Hin Hne Hwords.
  assert (HA : AgentFunction self (gc, idx, st)
               = (next_guess (after_reducer self g st) (gc, idx, st),
                  after_reducer self g st)).
  { rewrite (AgentFunction_turn self gc idx st g Hr Hgc Hdec).
    - rewrite drop_rejected_agree; [reflexivity|]. simpl. assumption.
    - eapply Forall_impl; [|exact Hn]. simpl. intros w ->. lia. }
  destruct (index_In _ _ Hin) as [grey Hgrey].
  assert (Hlt : (grey < n)%nat).
  { rewrite <- Hs. apply nth_error_Some.
    rewrite (index_nth _ _ _ Hgrey). discriminate. }
  set (s := after_reducer self g st) in *.
  set (pl := letters_at grey (dictionary_backup s)).
  set (scores := map (stuck_score_code pl) (dictionary self)).
  destruct (argmax_Ok scores) as [m Hm].
  { unfold scores. destruct (dictionary self); [congruence|discriminate]. }
  pose proof (argmax_lt _ _ Hm) as Hml. unfold scores in Hml.
  rewrite length_map in Hml.
  destruct (nth_error (dictionary self) m) as [w|] eqn:Hw;
    [|apply nth_error_None in Hw; lia].
  exists grey, m, w. split; [assumption|].
  split; [apply argmax_first_max; assumption|]. split; [exact Hw|].
  rewrite HA, (next_guess_stuck _ _ Hst). unfold smart_guess.
  rewrite Hgrey. simpl bind.
  rewrite (possible_letters_of_Ok
             (filter (keeps g st) (dictionary_backup self)) grey).
  - simpl bind.
    change (letters_at grey (filter (keeps g st) (dictionary_backup self)))
      with pl.
    rewrite (smart_scores_code pl (dictionary self) None Hwords).
    simpl bind. fold scores. rewrite Hm. simpl bind.
    unfold Py.getitem. rewrite Hw. reflexivity.
  - apply Forall_filter.
    eapply Forall_impl; [|exact Hn]. simpl. intros c ->. assumption.
Qed.

Lemma AgentFunction_stuck_turn_witness :
  exists grey_pos m w,
    Py.index 0 [0; 1; 1; 1; 1] = Ok grey_pos
    /\ first_max
         (map (stuck_score_code
                 (letters_at grey_pos
                    (dictionary_backup
                       (after_reducer rain_agent (W "GRAIN")
                          [0; 1; 1; 1; 1]))))
            (dictionary rain_agent)) m
    /\ nth_error (dictionary rain_agent) m = Some w
    /\ AgentFunction rain_agent (1, [6; 17; 0; 8; 13], [0; 1; 1; 1; 1])
       = (Ok (Some w),
          after_reducer rain_agent (W "GRAIN") [0; 1; 1; 1; 1]).
Proof.
  apply (AgentFunction_stuck_turn rain_agent 1 [6; 17; 0; 8; 13]
           [0; 1; 1; 1; 1] (W "GRAIN") 5).
  - reflexivity.
  - discriminate.
  - reflexivity.
  - reflexivity.
  - repeat constructor.
  - reflexivity.
  - simpl. lia.
  - reflexivity.
  - simpl. auto.
  - discriminate.
  - repeat constructor; discriminate.
Defined.

(** * Further properties of the scorer *)

Lemma probability_loop_perm (l1 l2 : list word) (c : ascii) (pos : nat) :
  Permutation l1 l2 ->
  forall freq,
    probability_loop l1 c pos freq = probability_loop l2 c pos freq.
Proof.
  induction 1 as [|x l l' _ IH|x y l|l l' l'' _ IH1 _ IH2]; intros freq;
    simpl.
  - reflexivity.
  - destruct (Py.getitem x pos); simpl; [apply IH | reflexivity].
  - destruct (Py.getitem y pos) as [a|e1] eqn:Ey,
             (Py.getitem x pos) as [b|e2] eqn:Ex; simpl; try reflexivity.
    + destruct (Ascii.eqb a c), (Ascii.eqb b c); reflexivity.
    + apply getitem_Raise in Ey, Ex. subst. reflexivity.
  - rewrite IH1. apply IH2.
Qed.

Lemma probability_perm (a b : WordleAgent) (c : ascii) (pos : nat) :
  Permutation (dictionary_backup a) (dictionary_backup b) ->
  probability a c pos = probability b c pos.
Proof.
  intros H. unfold probability.
  rewrite (probability_loop_perm _ _ c pos H 0%nat).
  rewrite (Permutation_length H). reflexivity.
Qed.

(** The score of a word does not depend on the order of the candidates:
    over two candidate lists that are permutations of each other, [score]
    returns the same number or raises the same exception.  The order of
    the candidates only decides between words of equal score. *)
Theorem score_permutation (a b : WordleAgent) (w : word) :
  Permutation (dictionary_backup a) (dictionary_backup b) ->
  score a w = score b w.
Proof.
  intros H. unfold score.
  generalize (seq 0 (length w)) as ps, 0%float as s, false as d.
  assert (G : forall ps s d,
            score_loop a w ps s d = score_loop b w ps s d).
  { induction ps as [|i rest IH]; intros s d; simpl; [reflexivity|].
    destruct (Py.getitem w i) as [c|e]; simpl; [|reflexivity].
    unfold entropy. rewrite (probability_perm a b c i H).
    destruct (probability b c i); simpl; [apply IH | reflexivity]. }
  intros ps s d. rewrite G. reflexivity.
Qed.

Lemma score_permutation_witness :
  score agent3 (W "SLATE")
  = score (set_backup agent3 [W "TRAIN"; W "CRANE"; W "SLATE"]) (W "SLATE").
Proof.
  apply (score_permutation agent3
           (set_backup agent3 [W "TRAIN"; W "CRANE"; W "SLATE"]) (W "SLATE")).
  simpl. unfold crane_slate_train.
  apply Permutation_sym.
  apply (perm_trans (l' := [W "CRANE"; W "TRAIN"; W "SLATE"])).
  - apply perm_swap.
  - apply perm_skip. apply perm_swap.
Defined.

(** Over an empty candidate set there is nothing to divide by: [score]
    raises [ZeroDivisionError] at the first letter of a word, and returns
    0 for the empty word, which has no letter to ask a probability for. *)
Theorem score_empty_candidates (self : WordleAgent) (w : word) :
  dictionary_backup self = [] ->
  score self w = match w with
                 | [] => Ok 0%float
                 | _ :: _ => Raise ZeroDivisionError
                 end.
Proof.
  intros Hb. destruct w as [|c w]; [reflexivity|].
  unfold score. simpl. unfold entropy, probability. rewrite Hb.
  reflexivity.
Qed.

Lemma score_empty_candidates_witness :
  score empty_agent (W "CRANE")
  = match W "CRANE" with
    | [] => Ok 0%float
    | _ :: _ => Raise ZeroDivisionError
    end.
Proof.
  apply (score_empty_candidates empty_agent (W "CRANE")). reflexivity.
Defined.

Lemma first_max_unique (scores : list float) (m m' : nat) :
  first_max scores m -> first_max scores m' -> m = m'.
Proof.
  intros (sm & Hm & Hmax & Hfirst) (sm' & Hm' & Hmax' & Hfirst').
  destruct (Nat.lt_trichotomy m m') as [L|[E|L]]; [|assumption|].
  - pose proof (Hfirst' m sm L Hm) as F.
    rewrite (Hmax m' sm' Hm') in F. discriminate.
  - pose proof (Hfirst m' sm' L Hm') as F.
    rewrite (Hmax' m sm Hm) in F. discriminate.
Qed.

Lemma stuck_few (self : WordleAgent) (p : percepts) :
  (length (dictionary_backup self) <= 2)%nat -> stuck self p = false.
Proof.
  intros H. destruct p as [[gc idx] st]. unfold stuck.
  destruct (Nat.ltb_spec 2 (length (dictionary_backup self))); [lia|].
  rewrite andb_false_r. reflexivity.
Qed.

(** The last candidate is guessed: when the counters are in step and the
    reducer leaves one candidate, the call returns that candidate. *)
Theorem AgentFunction_last_candidate (self : WordleAgent) (gc : Z)
    (idx st : list Z) (g w : word) :
  has_run self = true ->
  gc <> 0 ->
  gc = last_guess_counter self + 1 ->
  letter_indices_to_word idx (letters self) = Ok g ->
  Forall (fun c => (length c <= length st)%nat /\ (length c <= length g)%nat)
    (dictionary_backup self) ->
  dictionary_backup (after_reducer self g st) = [w] ->
  AgentFunction self (gc, idx, st) = (Ok (Some w), after_reducer self g st).
Proof.
  intros Hr Hgc Hc Hdec Hlen Hb.
  rewrite (AgentFunction_turn self gc idx st g Hr Hgc Hdec Hlen).
  rewrite drop_rejected_agree by (simpl; assumption).
  destruct (next_guess_normal (after_reducer self g st) (gc, idx, st))
    as (ss & m & w' & _ & _ & Hw & Hng).
  - apply stuck_few. rewrite Hb. simpl. lia.
  - rewrite Hb. discriminate.
  - rewrite Hb. exists (length w). repeat constructor.
  - rewrite Hng. rewrite Hb in Hw.
    destruct m as [|m]; [|destruct m; discriminate].
    simpl in Hw. injection Hw as <-. reflexivity.
Qed.

Lemma AgentFunction_last_candidate_witness :
  AgentFunction agent4_opened (1, [18; 11; 0; 19; 4], [0; 0; 1; -1; 0])
  = (Ok (Some (W "TRAIN")),
     after_reducer agent4_opened (W "SLATE") [0; 0; 1; -1; 0]).
Proof.
  apply (AgentFunction_last_candidate agent4_opened 1 [18; 11; 0; 19; 4]
           [0; 0; 1; -1; 0] (W "SLATE") (W "TRAIN")).
  - reflexivity.
  - discriminate.
  - reflexivity.
  - reflexivity.
  - repeat constructor.
  - vm_compute. reflexivity.
Defined.

(** The first call of a fresh agent, in a process whose flag is not yet
    set, over a dictionary of one word length that is not empty: turn 0
    computes the opener and returns it, the first word of maximum score
    over the full dictionary, and leaves the index cached, the flag set,
    the counter at 0 and the dictionary as candidate set. *)
Theorem AgentFunction_first_call (dict : list word) (ls : list ascii)
    (wl ng : Z) (md : string) (idx st : list Z) :
  dict <> [] ->
  uniform dict ->
  exists scores m w,
    calculate_scores (init dict ls wl ng md false) = Ok scores
    /\ first_max scores m
    /\ nth_error dict m = Some w
    /\ AgentFunction (init dict ls wl ng md false) (0, idx, st)
       = (Ok (Some w), mkAgent dict dict ls wl ng md m 0 true).
Proof.
  intros Hne Hun.
  destruct (calculate_scores_Ok (init dict ls wl ng md false) Hun)
    as (ss & Hss & Hlen).
  simpl in Hlen.
  destruct (argmax_Ok ss) as [m Hm].
  { intros ->. destruct dict; [congruence|discriminate]. }
  pose proof (argmax_lt _ _ Hm) as Hlt.
  destruct (nth_error dict m) as [w|] eqn:Hw;
    [|apply nth_error_None in Hw; lia].
  exists ss, m, w. split; [assumption|].
  split; [apply argmax_first_max; assumption|]. split; [exact Hw|].
  unfold AgentFunction, get_first_guess. simpl has_run. cbv iota.
  unfold calculate_scores in *.
  rewrite (scores_of_backup _ (init dict ls wl ng md false)) by reflexivity.
  simpl dictionary_backup in *. rewrite Hss. simpl bind. rewrite Hm.
  simpl. unfold Py.getitem. rewrite Hw. reflexivity.
Qed.

Lemma AgentFunction_first_call_witness :
  exists scores m w,
    calculate_scores (init crane_slate_train alphabet 5 6 "easy" false)
    = Ok scores
    /\ first_max scores m
    /\ nth_error crane_slate_train m = Some w
    /\ AgentFunction (init crane_slate_train alphabet 5 6 "easy" false)
         (0, [], [])
       = (Ok (Some w),
          mkAgent crane_slate_train crane_slate_train alphabet 5 6 "easy"
            m 0 true).
Proof.
  apply (AgentFunction_first_call crane_slate_train alphabet 5 6 "easy"
           [] []).
  - discriminate.
  - exists 5%nat. repeat constructor.
Defined.

Lemma after_reducer_again (self : WordleAgent) (g : word) (st : list Z) :
  after_reducer (after_reducer self g st) g st
  = set_counter (after_reducer self g st) (last_guess_counter self + 1 + 1).
Proof.
  unfold after_reducer. simpl. rewrite filter_twice. reflexivity.
Qed.

Lemma calculate_scores_backup (a b : WordleAgent) :
  dictionary_backup a = dictionary_backup b ->
  calculate_scores a = calculate_scores b.
Proof.
  intros E. unfold calculate_scores. rewrite (scores_of_backup a b _ E), E.
  reflexivity.
Qed.

(** On the scoring path the word dropped after a rejection is the word
    that was returned.  When a call in step with the external index
    returns a word by the scoring path and the game answers by sending the
    same percepts again, the second call finds the same candidates after
    its reducer, sees the counters differ, and removes exactly the
    candidate that the first call returned. *)
Theorem AgentFunction_drops_its_guess (self : WordleAgent) (gc : Z)
    (idx st : list Z) (g : word) (n : nat) :
  has_run self = true ->
  gc <> 0 ->
  gc = last_guess_counter self + 1 ->
  letter_indices_to_word idx (letters self) = Ok g ->
  Forall (fun w => length w = n) (dictionary_backup self) ->
  (n <= length st)%nat ->
  (n <= length g)%nat ->
  stuck (after_reducer self g st) (gc, idx, st) = false ->
  dictionary_backup (after_reducer self g st) <> [] ->
  exists m w,
    AgentFunction self (gc, idx, st) = (Ok (Some w), after_reducer self g st)
    /\ nth_error (dictionary_backup (after_reducer self g st)) m = Some w
    /\ dictionary_backup
         (snd (AgentFunction (after_reducer self g st) (gc, idx, st)))
       = without_nth m (dictionary_backup (after_reducer self g st)).
Proof.
  intros Hr Hgc Hc Hdec Hn Hs Hg Hst Hne.
  set (s1 := after_reducer self g st) in *.
  assert (Hlen : Forall (fun w => (length w <= length st)%nat
                                  /\ (length w <= length g)%nat)
                   (dictionary_backup self)).
  { eapply Forall_impl; [|exact Hn]. simpl. intros w ->. auto. }
  assert (Hun1 : uniform (dictionary_backup s1)).
  { unfold s1. simpl. apply uniform_filter. exists n. assumption. }
  destruct (next_guess_normal s1 (gc, idx, st) Hst Hne Hun1)
    as (ss & m & w & Hss & Hfm & Hw & Hng).
  exists m, w. split; [|split; [exact Hw|]].
  - rewrite (AgentFunction_turn self gc idx st g Hr Hgc Hdec Hlen).
    fold s1. rewrite drop_rejected_agree by (simpl; assumption).
    rewrite Hng. reflexivity.
  - rewrite (AgentFunction_turn s1 gc idx st g);
      [| reflexivity || exact Hr | exact Hgc | exact Hdec
       | unfold s1; simpl; apply Forall_filter; exact Hlen ].
    unfold s1 at 1. rewrite after_reducer_again. fold s1.
    set (s2 := set_counter s1 (last_guess_counter self + 1 + 1)).
    destruct (drop_rejected_disagree s2 gc)
      as (ss' & m' & w' & Hss' & Hfm' & Hw' & Hd).
    + simpl. lia.
    + exact Hne.
    + exact Hun1.
    + rewrite (calculate_scores_backup s2 s1 eq_refl) in Hss'.
      rewrite Hss in Hss'. injection Hss' as <-.
      pose proof (first_max_unique _ _ _ Hfm Hfm') as <-.
      rewrite Hd. reflexivity.
Qed.

Lemma AgentFunction_drops_its_guess_witness :
  exists m w,
    AgentFunction agent4_opened (1, [2; 17; 0; 13; 4], [0; 1; 1; -1; 0])
    = (Ok (Some w), after_reducer agent4_opened (W "CRANE") [0; 1; 1; -1; 0])
    /\ nth_error
         (dictionary_backup
            (after_reducer agent4_opened (W "CRANE") [0; 1; 1; -1; 0])) m
       = Some w
    /\ dictionary_backup
         (snd (AgentFunction
                 (after_reducer agent4_opened (W "CRANE") [0; 1; 1; -1; 0])
                 (1, [2; 17; 0; 13; 4], [0; 1; 1; -1; 0])))
       = without_nth m
           (dictionary_backup
              (after_reducer agent4_opened (W "CRANE") [0; 1; 1; -1; 0])).
Proof.
  apply (AgentFunction_drops_its_guess agent4_opened 1 [2; 17; 0; 13; 4]
           [0; 1; 1; -1; 0] (W "CRANE") 5).
  - reflexivity.
  - discriminate.
  - reflexivity.
  - reflexivity.
  - repeat constructor.
  - simpl. lia.
  - simpl. lia.
  - reflexivity.
  - vm_compute. discriminate.
Defined.
